(** * Project-path inference and backfill (scripts/migrate_session_paths.py)

    A shallow embedding of the migration script: the text primitives of
    Python the script relies on, the candidate extractor, the scorer and
    ranker, the record processor and the batch loop, followed by the
    properties of the engine. *)

From Stdlib Require Import String Ascii.
From Stdlib Require Import List ZArith NArith Bool Lia Arith.
From Stdlib Require Import Permutation Sorted.
From Stdlib Require Import Floats.SpecFloat DecimalString.
From Stdlib Require Strings.Byte.
Import ListNotations.

Set Implicit Arguments.
Local Set Warnings "-register-all".

(** ** Python text

    A Python [str] is a sequence of Unicode code points, [bytes] a sequence
    of octets. *)

Module PyStr.

Definition char := N.
Definition str := list char.
Definition bytes := list Byte.byte.

(** A string literal of the source (ASCII only). *)
Definition lit (s : string) : str := map N_of_ascii (list_ascii_of_string s).

Definition in_range (lo hi c : N) : bool := (lo <=? c)%N && (c <=? hi)%N.

(** [str.isspace] on one code point; also the class [\s] of [re] on [str]
    patterns. *)
Definition is_space (c : char) : bool :=
  in_range 9 13 c || in_range 28 32 c || (c =? 133)%N || (c =? 160)%N
  || (c =? 5760)%N || in_range 8192 8202 c || (c =? 8232)%N || (c =? 8233)%N
  || (c =? 8239)%N || (c =? 8287)%N || (c =? 12288)%N.

(** The line boundaries of [str.splitlines]. *)
Definition is_linebreak (c : char) : bool :=
  in_range 10 13 c || in_range 28 30 c || (c =? 133)%N
  || (c =? 8232)%N || (c =? 8233)%N.

Fixpoint str_eqb (a b : str) : bool :=
  match a, b with
  | [], [] => true
  | x :: a', y :: b' => (x =? y)%N && str_eqb a' b'
  | _, _ => false
  end.

(** [s.startswith(p)] *)
Fixpoint startswith (p s : str) : bool :=
  match p, s with
  | [], _ => true
  | x :: p', y :: s' => (x =? y)%N && startswith p' s'
  | _ :: _, [] => false
  end.

(** [s.find(sub)]: the lowest index at which [sub] occurs, [-1] if none. *)
Fixpoint find (s sub : str) : Z :=
  if startswith sub s then 0%Z
  else match s with
       | [] => (-1)%Z
       | _ :: s' => let r := find s' sub in
                    if (r <? 0)%Z then (-1)%Z else (r + 1)%Z
       end.

(** [sub in s] *)
Definition contains (sub s : str) : bool := (0 <=? find s sub)%Z.

(** [s[i:]] for a non-negative [i] *)
Definition slice_from (i : Z) (s : str) : str := skipn (Z.to_nat i) s.

Definition len (s : str) : Z := Z.of_nat (length s).

Fixpoint lstrip_by (f : char -> bool) (s : str) : str :=
  match s with
  | [] => []
  | c :: r => if f c then lstrip_by f r else s
  end.

Fixpoint rstrip_by (f : char -> bool) (s : str) : str :=
  match s with
  | [] => []
  | c :: r =>
      match rstrip_by f r with
      | [] => if f c then [] else [c]
      | r' => c :: r'
      end
  end.

(** [s.strip()] *)
Definition strip (s : str) : str := rstrip_by is_space (lstrip_by is_space s).

Definition mem_char (c : char) (set : str) : bool :=
  existsb (fun x => (x =? c)%N) set.

(** [s.rstrip(chars)] *)
Definition rstrip_chars (chars s : str) : str :=
  rstrip_by (fun c => mem_char c chars) s.

(** [s.splitlines()]: a line ends at a line boundary, [\r\n] counting as
    one; a final line without boundary is kept when it is not empty. *)
Fixpoint splitlines (s : str) : list str :=
  match s with
  | [] => []
  | c :: rest =>
      if is_linebreak c then
        [] :: match rest with
              | c2 :: rest2 =>
                  if (c =? 13)%N && (c2 =? 10)%N then splitlines rest2
                  else splitlines rest
              | [] => []
              end
      else match splitlines rest with
           | [] => [[c]]
           | l :: ls => (c :: l) :: ls
           end
  end.

(** [sep.join(parts)] *)
Fixpoint join (sep : str) (parts : list str) : str :=
  match parts with
  | [] => []
  | [p] => p
  | p :: ps => p ++ sep ++ join sep ps
  end.

End PyStr.
Import PyStr.

(** ** Decoded JSON values, as [json.loads] builds them *)

Inductive json : Type :=
| JNull
| JBool (b : bool)
| JInt (n : Z)
| JFloat (f : spec_float)
| JStr (s : str)
| JList (items : list json)
| JDict (fields : list (str * json)).

(** A [dict] with string keys, in insertion order. *)
Definition dict := list (str * json).

(** [d.get(key)], [None] when the key is absent *)
Fixpoint dict_get (d : dict) (key : str) : option json :=
  match d with
  | [] => None
  | (k, v) :: d' => if str_eqb k key then Some v else dict_get d' key
  end.

(** [d[key] = v]: an existing key keeps its place, a new one goes last. *)
Fixpoint dict_set (d : dict) (key : str) (v : json) : dict :=
  match d with
  | [] => [(key, v)]
  | (k, x) :: d' =>
      if str_eqb k key then (k, v) :: d' else (k, x) :: dict_set d' key v
  end.

(** ** The world the script runs in

    The directory test and the path normalisation read the file system,
    which the script never changes in that respect: it only rewrites
    record files that exist. The environment holds what it reads, the disk
    the bytes of the files. *)

Record Env : Type := mkEnv {
  (** [Path(p).expanduser()] is absolute and an existing directory *)
  fs_is_abs_dir : str -> bool;
  (** [str(Path(p).expanduser().resolve())] *)
  fs_resolve : str -> str;
  (** whether the file can be opened for writing *)
  fs_writable : str -> bool;
  (** [sorted(config_dir.glob("context-*.json"))] *)
  fs_listing : str -> list str
}.

(** The bytes of each file, [None] for one that cannot be read. *)
Definition Disk := str -> option bytes.

(** The disk after a file took new bytes. *)
Definition set_file (d : Disk) (path : str) (b : bytes) : Disk :=
  fun p => if str_eqb p path then Some b else d p.

(** The text codecs and the [json] module, which the script takes from
    the Python library. *)
Record Codec : Type := mkCodec {
  (** decoding of the bytes read, as [read_text(encoding="utf-8")] does *)
  decode_text : bytes -> option str;
  (** encoding of the text written, as [write_text(encoding="utf-8")] does *)
  encode_text : str -> option bytes;
  (** [json.loads(text)], [None] when it raises *)
  json_loads : str -> option json;
  (** [json.dumps(payload, separators=(",", ":"), ensure_ascii=False)],
      [None] when it raises *)
  json_dumps : json -> option str
}.

(** ** The script *)

Definition PROJECT_ROOT_MARKERS : list str :=
  [ lit "Active project root:"; lit "Project set to" ].

(** The answer of the directory test, for the calls in which it answers.
    The call can also raise ([expanduser] on a user it does not know,
    [is_dir] on a name the system refuses); the functions under [Exc]
    below follow the script through such calls. *)
Definition is_abs_dir (e : Env) (path_str : str) : bool :=
  fs_is_abs_dir e path_str.

Definition normalize_path (e : Env) (path_str : str) : str :=
  fs_resolve e path_str.

(** The character class of the pattern: anything but whitespace, the two
    quote characters and the angle brackets. *)
Definition path_char (c : char) : bool :=
  negb (is_space c || (c =? 34)%N || (c =? 39)%N || (c =? 60)%N || (c =? 62)%N).

Definition emit (tok : str) : list str :=
  if (2 <=? length tok)%nat then [rev tok] else [].

(** [re.findall] on the pattern of the source, a slash followed by one or
    more characters of the class: the matches from left to right, none
    overlapping. [tok] is the match being read, last character first, and
    [None] between matches; a slash alone is no match. *)
Fixpoint findall_paths (tok : option str) (text : str) : list str :=
  match text with
  | [] => match tok with Some t => emit t | None => [] end
  | c :: rest =>
      match tok with
      | Some t =>
          if path_char c then findall_paths (Some (c :: t)) rest
          else emit t ++ findall_paths None rest
      | None =>
          if (c =? 47)%N then findall_paths (Some [c]) rest
          else findall_paths None rest
      end
  end.

Definition extract_absolute_paths (text : str) : list str :=
  let candidates := findall_paths None text in
  fold_left
    (fun out c =>
       let c := rstrip_chars (lit ".,;:)]}") c in
       if startswith (lit "//") c then out else out ++ [c])
    candidates [].

Definition score_candidate (e : Env) (path context_text : str) : Z :=
  let score := 0%Z in
  let score := if is_abs_dir e path then (score + 10)%Z else score in
  let score :=
    fold_left
      (fun score marker =>
         if contains (marker ++ lit " " ++ path) context_text
         then (score + 50)%Z else score)
      PROJECT_ROOT_MARKERS score in
  let score := if contains (lit "/home/") path then (score + 2)%Z else score in
  (score + Z.max 0 (20 - len path / 8))%Z.

(** The body of the loop over the markers, for one marker: what it appends
    to [candidates]. *)
Definition marker_candidates (content marker : str) : list str :=
  let idx := find content marker in
  if (0 <=? idx)%Z then
    let maybe := strip (slice_from (idx + len marker) content) in
    if startswith (lit "/") maybe then
      let line := strip (hd [] (splitlines maybe)) in
      match line with
      | [] => []
      | _ => [line]
      end
    else []
  else [].

(** What one turn with a textual [content] appends to [candidates]. *)
Definition turn_candidates (content : str) : list str :=
  fold_left (fun cands marker => cands ++ marker_candidates content marker)
            PROJECT_ROOT_MARKERS []
  ++ extract_absolute_paths content.

(** The loop over [turns]: the state is [(candidates, context_blob_parts)]. *)
Fixpoint scan_turns (turns : list json) (st : list str * list str)
  : list str * list str :=
  match turns with
  | [] => st
  | JDict turn :: rest =>
      match dict_get turn (lit "content") with
      | Some (JStr content) =>
          scan_turns rest (fst st ++ turn_candidates content, snd st ++ [content])
      | _ => scan_turns rest st
      end
  | _ :: rest => scan_turns rest st
  end.

(** The evidence of a record: [(candidates, context_blob)]. *)
Definition collect (payload : dict) : list str * str :=
  let st : list str * list str :=
    match dict_get payload (lit "title") with
    | Some (JStr title) =>
        ( (if startswith (lit "/") title then [strip title] else []), [title] )
    | _ => ([], [])
    end in
  let turns := match dict_get payload (lit "turns") with
               | Some v => v
               | None => JList []
               end in
  let st := match turns with
            | JList items => scan_turns items st
            | _ => st
            end in
  (fst st, join [10%N] (snd st)).

(** The loop that scores each distinct candidate once. *)
Fixpoint rank_loop (e : Env) (context_blob : str) (candidates seen : list str)
  : list (Z * str) :=
  match candidates with
  | [] => []
  | c :: rest =>
      if existsb (str_eqb c) seen then rank_loop e context_blob rest seen
      else (score_candidate e c context_blob, c)
           :: rank_loop e context_blob rest (c :: seen)
  end.

(** [ranked.sort(key=lambda x: x[0], reverse=True)]: the sort is stable,
    entries of equal score keep their order. *)
Fixpoint insert_desc (x : Z * str) (l : list (Z * str)) : list (Z * str) :=
  match l with
  | [] => [x]
  | y :: l' => if (fst x <? fst y)%Z then y :: insert_desc x l' else x :: l
  end.

Definition sort_desc (l : list (Z * str)) : list (Z * str) :=
  fold_right insert_desc [] l.

Definition ranked (e : Env) (payload : dict) : list (Z * str) :=
  let '(candidates, context_blob) := collect payload in
  sort_desc (rank_loop e context_blob candidates []).

(** [existing = payload.get("project_path")] when it is a [str] that passes
    the directory test. *)
Definition existing_dir (e : Env) (payload : dict) : option str :=
  match dict_get payload (lit "project_path") with
  | Some (JStr existing) => if is_abs_dir e existing then Some existing else None
  | _ => None
  end.

Definition infer_project_path (e : Env) (payload : dict) : option str :=
  match existing_dir e payload with
  | Some existing => Some (normalize_path e existing)
  | None =>
      match fst (collect payload) with
      | [] => None
      | _ :: _ =>
          match ranked e payload with
          | [] => None
          | (best_score, best) :: _ =>
              if (best_score <? 10)%Z then None
              else if negb (is_abs_dir e best) then None
              else Some (normalize_path e best)
          end
      end
  end.

(** ** The record processor *)

Inductive Disposition : Type := Updated | Skipped | Failed.

(** [json.loads(path.read_text(encoding="utf-8"))], [None] when any step
    raises. *)
Definition parse_bytes (c : Codec) (b : bytes) : option json :=
  match decode_text c b with
  | Some text => json_loads c text
  | None => None
  end.

Definition read_json (c : Codec) (d : Disk) (path : str) : option json :=
  match d path with
  | Some b => parse_bytes c b
  | None => None
  end.

(** [path.write_text(text, encoding="utf-8")]: the file is opened for
    writing, which empties it, and then takes the encoded text. The second
    component tells whether the call returned without raising. This is the
    call on a system that takes every byte it is given; [Exc.write_text]
    below has the write that breaks off as well. *)
Definition write_text (c : Codec) (e : Env) (path text : str) (d : Disk)
  : Disk * bool :=
  if fs_writable e path then
    match encode_text c text with
    | Some b => (set_file d path b, true)
    | None => (set_file d path [], false)
    end
  else (d, false).

(** The body of the [try] of the write branch. *)
Definition persist (c : Codec) (e : Env) (path : str) (payload : dict)
    (d : Disk) : Disk * bool :=
  match json_dumps c (JDict payload) with
  | Some text => write_text c e path (text ++ [10%N]) d
  | None => (d, false)
  end.

(** [path.name]: the last component of the path *)
Fixpoint path_name (path : str) : str :=
  match path with
  | [] => []
  | c :: rest =>
      if existsb (N.eqb 47) rest then path_name rest
      else if (c =? 47)%N then rest else path
  end.

(** The result of a call: the returned pair, the disk it leaves and the
    lines it printed. *)
Definition process_file (c : Codec) (e : Env) (path : str)
    (write verbose : bool) (d : Disk)
  : (Disposition * option str) * Disk * list str :=
  match read_json c d path with
  | None => ((Failed, None), d, [])
  | Some (JDict payload) =>
      match existing_dir e payload with
      | Some existing => ((Skipped, Some (normalize_path e existing)), d, [])
      | None =>
          match infer_project_path e payload with
          | None | Some [] => ((Skipped, None), d, [])
          | Some inferred =>
              let payload :=
                dict_set payload (lit "project_path") (JStr inferred) in
              let '(d', written) :=
                if write then persist c e path payload d else (d, true) in
              if written then
                ((Updated, Some inferred), d',
                 if verbose then [path_name path ++ lit ": " ++ inferred]
                 else [])
              else ((Failed, None), d', [])
          end
      end
  | Some _ => ((Failed, None), d, [])
  end.

Definition result_status (r : (Disposition * option str) * Disk * list str)
  : Disposition := fst (fst (fst r)).

Definition result_path (r : (Disposition * option str) * Disk * list str)
  : option str := snd (fst (fst r)).

Definition result_disk (r : (Disposition * option str) * Disk * list str)
  : Disk := snd (fst r).

(** ** The batch driver *)

Record Counters : Type := mkCounters {
  scanned : Z; updated : Z; skipped : Z; failed : Z
}.

(** One turn of the loop on the counters: [scanned] goes up, and so does
    the counter of the status. *)
Definition count (k : Counters) (status : Disposition) : Counters :=
  let k := mkCounters (scanned k + 1) (updated k) (skipped k) (failed k) in
  match status with
  | Updated => mkCounters (scanned k) (updated k + 1) (skipped k) (failed k)
  | Skipped => mkCounters (scanned k) (updated k) (skipped k + 1) (failed k)
  | Failed => mkCounters (scanned k) (updated k) (skipped k) (failed k + 1)
  end.

(** The loop over the files; the state is the disk, the four counters and
    the lines printed so far. *)
Fixpoint main_loop (c : Codec) (e : Env) (write verbose : bool)
    (files : list str) (st : Disk * Counters * list str)
  : Disk * Counters * list str :=
  match files with
  | [] => st
  | f :: rest =>
      let '(d, k, out) := st in
      let '((status, _), d', printed) := process_file c e f write verbose d in
      main_loop c e write verbose rest (d', count k status, out ++ printed)
  end.

(** The status each turn of the loop obtains, in order. *)
Fixpoint dispositions (c : Codec) (e : Env) (write verbose : bool)
    (files : list str) (d : Disk) : list Disposition :=
  match files with
  | [] => []
  | f :: rest =>
      let '((status, _), d', _) := process_file c e f write verbose d in
      status :: dispositions c e write verbose rest d'
  end.

Definition dec (n : Z) : str := lit (NilZero.string_of_int (Z.to_int n)).

Record Run : Type := mkRun {
  exit_status : Z;
  final_counters : Counters;
  final_disk : Disk;
  stdout : list str
}.

Definition main (c : Codec) (e : Env) (config_dir : str)
    (write verbose : bool) (d : Disk) : Run :=
  let files := fs_listing e config_dir in
  let '(d', k, out) :=
    main_loop c e write verbose files (d, mkCounters 0 0 0 0, []) in
  let mode := if write then lit "write" else lit "dry-run" in
  let summary :=
    lit "mode=" ++ mode ++ lit " scanned=" ++ dec (scanned k)
    ++ lit " updated=" ++ dec (updated k) ++ lit " skipped=" ++ dec (skipped k)
    ++ lit " failed=" ++ dec (failed k) in
  mkRun (if (failed k =? 0)%Z then 0 else 1) k d' (out ++ [summary]).

(** ** Repeated runs

    What a second run relies on: the text written for a payload reads back
    as that payload, and the normal form of an existing directory is an
    existing directory. *)




(** The disk a batch leaves. *)
Definition sweep (c : Codec) (e : Env) (write verbose : bool)
    (files : list str) (d : Disk) : Disk :=
  fst (fst (main_loop c e write verbose files (d, mkCounters 0 0 0 0, []))).

(** ** Exceptions and write errors

    The script calls the directory test outside its [try] blocks, and the
    test can raise: [Path.expanduser] does for a user it does not know, and
    [Path.is_dir] for a name the system refuses. A write can break off
    after the file was opened (no space left, file too large, device
    error). [Faults] tells on which strings the test raises and how many
    bytes a file takes before the system reports an error; the functions
    of [Exc] are the script under such faults, [None] standing for an
    exception that leaves the function. *)

Record Faults : Type := mkFaults {
  dir_test_raises : str -> bool;
  (** [None] when the file takes all the bytes it is given *)
  write_room : str -> option nat
}.

Definition no_faults : Faults :=
  {| dir_test_raises := fun _ => false; write_room := fun _ => None |}.

(** How a command ends: it returns, or an exception leaves it with the
    disk, the counters and the output as they are at that point. *)
Inductive Outcome : Type :=
| Returned (run : Run)
| Raised (d : Disk) (k : Counters) (out : list str).

(** The exit status of the process: that of [SystemExit(main())], or 1
    when an exception ends the interpreter. *)
Definition process_exit_status (o : Outcome) : Z :=
  match o with
  | Returned run => exit_status run
  | Raised _ _ _ => 1
  end.

Module Exc.

Definition is_abs_dir (f : Faults) (e : Env) (path_str : str) : option bool :=
  if dir_test_raises f path_str then None
  else Some (fs_is_abs_dir e path_str).

Definition score_candidate (f : Faults) (e : Env) (path context_text : str)
  : option Z :=
  match is_abs_dir f e path with
  | None => None
  | Some is_dir =>
      let score := 0%Z in
      let score := if is_dir then (score + 10)%Z else score in
      let score :=
        fold_left
          (fun score marker =>
             if contains (marker ++ lit " " ++ path) context_text
             then (score + 50)%Z else score)
          PROJECT_ROOT_MARKERS score in
      let score :=
        if contains (lit "/home/") path then (score + 2)%Z else score in
      Some (score + Z.max 0 (20 - len path / 8))%Z
  end.

Fixpoint rank_loop (f : Faults) (e : Env) (context_blob : str)
    (candidates seen : list str) : option (list (Z * str)) :=
  match candidates with
  | [] => Some []
  | c :: rest =>
      if existsb (str_eqb c) seen then rank_loop f e context_blob rest seen
      else
        match score_candidate f e c context_blob with
        | None => None
        | Some score =>
            match rank_loop f e context_blob rest (c :: seen) with
            | None => None
            | Some l => Some ((score, c) :: l)
            end
        end
  end.

(** The ranking, when every candidate could be scored. *)
Definition ranked (f : Faults) (e : Env) (payload : dict)
  : option (list (Z * str)) :=
  let '(candidates, context_blob) := collect payload in
  match rank_loop f e context_blob candidates [] with
  | None => None
  | Some l => Some (sort_desc l)
  end.

(** The test on [project_path]: [Some (Some existing)] when it is a string
    that passes, [Some None] when it is no string or does not pass. *)
Definition existing_dir (f : Faults) (e : Env) (payload : dict)
  : option (option str) :=
  match dict_get payload (lit "project_path") with
  | Some (JStr existing) =>
      match is_abs_dir f e existing with
      | None => None
      | Some true => Some (Some existing)
      | Some false => Some None
      end
  | _ => Some None
  end.

Definition infer_project_path (f : Faults) (e : Env) (payload : dict)
  : option (option str) :=
  match existing_dir f e payload with
  | None => None
  | Some (Some existing) => Some (Some (normalize_path e existing))
  | Some None =>
      match fst (collect payload) with
      | [] => Some None
      | _ :: _ =>
          match ranked f e payload with
          | None => None
          | Some [] => Some None
          | Some ((best_score, best) :: _) =>
              if (best_score <? 10)%Z then Some None
              else
                match is_abs_dir f e best with
                | None => None
                | Some false => Some None
                | Some true => Some (Some (normalize_path e best))
                end
          end
      end
  end.

(** [path.write_text(text, encoding="utf-8")]: the open empties the file;
    a text that cannot be encoded leaves it empty; a write that the system
    breaks off leaves the bytes it took, a proper prefix of the encoded
    text. *)
Definition write_text (f : Faults) (c : Codec) (e : Env) (path text : str)
    (d : Disk) : Disk * bool :=
  if fs_writable e path then
    match encode_text c text with
    | None => (set_file d path [], false)
    | Some b =>
        match write_room f path with
        | Some room =>
            if (room <? length b)%nat
            then (set_file d path (firstn room b), false)
            else (set_file d path b, true)
        | None => (set_file d path b, true)
        end
    end
  else (d, false).

Definition persist (f : Faults) (c : Codec) (e : Env) (path : str)
    (payload : dict) (d : Disk) : Disk * bool :=
  match json_dumps c (JDict payload) with
  | Some text => write_text f c e path (text ++ [10%N]) d
  | None => (d, false)
  end.

Definition process_file (f : Faults) (c : Codec) (e : Env) (path : str)
    (write verbose : bool) (d : Disk)
  : option ((Disposition * option str) * Disk * list str) :=
  match read_json c d path with
  | None => Some ((Failed, None), d, [])
  | Some (JDict payload) =>
      match existing_dir f e payload with
      | None => None
      | Some (Some existing) =>
          Some ((Skipped, Some (normalize_path e existing)), d, [])
      | Some None =>
          match infer_project_path f e payload with
          | None => None
          | Some None | Some (Some []) => Some ((Skipped, None), d, [])
          | Some (Some inferred) =>
              let payload :=
                dict_set payload (lit "project_path") (JStr inferred) in
              let '(d', written) :=
                if write then persist f c e path payload d else (d, true) in
              if written then
                Some ((Updated, Some inferred), d',
                      if verbose then [path_name path ++ lit ": " ++ inferred]
                      else [])
              else Some ((Failed, None), d', [])
          end
      end
  | Some _ => Some ((Failed, None), d, [])
  end.

(** The loop of [main]. The flag tells whether the loop came to its end;
    when a call raises, [scanned] has been incremented for its file and
    nothing else. *)
Fixpoint main_loop (f : Faults) (c : Codec) (e : Env) (write verbose : bool)
    (files : list str) (st : Disk * Counters * list str)
  : bool * (Disk * Counters * list str) :=
  match files with
  | [] => (true, st)
  | file :: rest =>
      let '(d, k, out) := st in
      match process_file f c e file write verbose d with
      | None =>
          (false,
           (d, mkCounters (scanned k + 1) (updated k) (skipped k) (failed k),
            out))
      | Some ((status, _), d', printed) =>
          main_loop f c e write verbose rest
                    (d', count k status, out ++ printed)
      end
  end.

Definition main (f : Faults) (c : Codec) (e : Env) (config_dir : str)
    (write verbose : bool) (d : Disk) : Outcome :=
  let files := fs_listing e config_dir in
  match main_loop f c e write verbose files (d, mkCounters 0 0 0 0, []) with
  | (false, (d', k, out)) => Raised d' k out
  | (true, (d', k, out)) =>
      let mode := if write then lit "write" else lit "dry-run" in
      let summary :=
        lit "mode=" ++ mode ++ lit " scanned=" ++ dec (scanned k)
        ++ lit " updated=" ++ dec (updated k)
        ++ lit " skipped=" ++ dec (skipped k)
        ++ lit " failed=" ++ dec (failed k) in
      Returned (mkRun (if (failed k =? 0)%Z then 0 else 1) k d'
                      (out ++ [summary]))
  end.

End Exc.

(** ** An instance of the codecs

    UTF-8 as Python's strict codec has it, and the JSON texts and values
    without floating-point numbers, for which this instance answers
    [None]. It serves the records worked out below. *)

Module Json.

Local Open Scope N_scope.

Definition octet (n : N) : Byte.byte :=
  match Byte.of_N n with Some b => b | None => Byte.x00 end.

(** One code point to its UTF-8 octets; the surrogates have none. *)
Definition utf8_of_char (c : char) : option bytes :=
  if c <? 128 then Some [octet c]
  else if c <? 2048 then Some [octet (192 + c / 64); octet (128 + c mod 64)]
  else if in_range 55296 57343 c then None
  else if c <? 65536 then
    Some [octet (224 + c / 4096); octet (128 + (c / 64) mod 64);
          octet (128 + c mod 64)]
  else if c <? 1114112 then
    Some [octet (240 + c / 262144); octet (128 + (c / 4096) mod 64);
          octet (128 + (c / 64) mod 64); octet (128 + c mod 64)]
  else None.

Fixpoint utf8_encode (s : str) : option bytes :=
  match s with
  | [] => Some []
  | c :: rest =>
      match utf8_of_char c, utf8_encode rest with
      | Some b, Some bs => Some (b ++ bs)
      | _, _ => None
      end
  end.

Definition cont (b : Byte.byte) : option N :=
  let n := Byte.to_N b in
  if in_range 128 191 n then Some (n - 128) else None.

Definition accept (lo hi c : N) (rest : option str) : option str :=
  if in_range lo hi c && negb (in_range 55296 57343 c) then
    match rest with Some s => Some (c :: s) | None => None end
  else None.

(** Strict decoding: no overlong form, no surrogate, nothing beyond
    U+10FFFF. *)
Fixpoint utf8_decode (b : bytes) : option str :=
  match b with
  | [] => Some []
  | x :: r =>
      let n := Byte.to_N x in
      if n <? 128 then accept 0 127 n (utf8_decode r)
      else if n <? 224 then
        match r with
        | y :: r1 =>
            match cont y with
            | Some a => accept 128 2047 ((n - 192) * 64 + a) (utf8_decode r1)
            | None => None
            end
        | _ => None
        end
      else if n <? 240 then
        match r with
        | y :: z :: r2 =>
            match cont y, cont z with
            | Some a, Some b' =>
                accept 2048 65535 ((n - 224) * 4096 + a * 64 + b')
                       (utf8_decode r2)
            | _, _ => None
            end
        | _ => None
        end
      else
        match r with
        | y :: z :: t :: r3 =>
            match cont y, cont z, cont t with
            | Some a, Some b', Some c' =>
                accept 65536 1114111
                       ((n - 240) * 262144 + a * 4096 + b' * 64 + c')
                       (utf8_decode r3)
            | _, _, _ => None
            end
        | _ => None
        end
  end.

(** *** Serialisation *)

Definition hex_digit (n : N) : char := if n <? 10 then 48 + n else 87 + n.

(** The escapes of a string when [ensure_ascii] is off: the quote, the
    backslash and the control characters below U+0020. *)
Definition escape_char (c : char) : str :=
  if c =? 34 then [92; 34]
  else if c =? 92 then [92; 92]
  else if c =? 10 then [92; 110]
  else if c =? 13 then [92; 114]
  else if c =? 9 then [92; 116]
  else if c =? 8 then [92; 98]
  else if c =? 12 then [92; 102]
  else if c <? 32 then [92; 117; 48; 48; hex_digit (c / 16); hex_digit (c mod 16)]
  else [c].

Definition quote (s : str) : str := [34] ++ flat_map escape_char s ++ [34].

Definition opt_app (a b : option str) : option str :=
  match a, b with
  | Some x, Some y => Some (x ++ y)
  | _, _ => None
  end.

Fixpoint dumps (v : json) : option str :=
  match v with
  | JNull => Some (lit "null")
  | JBool true => Some (lit "true")
  | JBool false => Some (lit "false")
  | JInt n => Some (lit (NilZero.string_of_int (Z.to_int n)))
  | JFloat _ => None
  | JStr s => Some (quote s)
  | JList items =>
      let fix go (l : list json) : option str :=
        match l with
        | [] => Some []
        | [x] => dumps x
        | x :: l' => opt_app (dumps x) (opt_app (Some [44]) (go l'))
        end in
      opt_app (Some [91]) (opt_app (go items) (Some [93]))
  | JDict fields =>
      let fix go (l : list (str * json)) : option str :=
        match l with
        | [] => Some []
        | [(k, x)] => opt_app (Some (quote k ++ [58])) (dumps x)
        | (k, x) :: l' =>
            opt_app (Some (quote k ++ [58]))
                    (opt_app (dumps x) (opt_app (Some [44]) (go l')))
        end in
      opt_app (Some [123]) (opt_app (go fields) (Some [125]))
  end.

(** *** Parsing *)

Definition is_json_ws (c : char) : bool :=
  (c =? 32) || (c =? 9) || (c =? 10) || (c =? 13).

Definition skip_ws (s : str) : str := lstrip_by is_json_ws s.

Definition hex_val (c : char) : option N :=
  if in_range 48 57 c then Some (c - 48)
  else if in_range 97 102 c then Some (c - 87)
  else if in_range 65 70 c then Some (c - 55)
  else None.

(** The four hexadecimal digits of a [\u] escape. *)
Definition hex4 (s : str) : option (N * str) :=
  match s with
  | a :: b :: c :: d :: r =>
      match hex_val a, hex_val b, hex_val c, hex_val d with
      | Some x, Some y, Some z, Some t =>
          Some (x * 4096 + y * 256 + z * 16 + t, r)
      | _, _, _, _ => None
      end
  | _ => None
  end.

Definition simple_escape (e : char) : option char :=
  if (e =? 34) || (e =? 92) || (e =? 47) then Some e
  else if e =? 98 then Some 8
  else if e =? 102 then Some 12
  else if e =? 110 then Some 10
  else if e =? 114 then Some 13
  else if e =? 116 then Some 9
  else None.

Definition push (c : char) (r : option (str * str)) : option (str * str) :=
  match r with
  | Some (s, rest) => Some (c :: s, rest)
  | None => None
  end.

(** The characters of a string after its opening quote, up to the closing
    one. An escaped high surrogate followed by an escaped low one is one
    code point; an escaped surrogate alone is kept as it is. *)
Fixpoint scan_string (fuel : nat) (s : str) : option (str * str) :=
  match fuel with
  | O => None
  | S fuel =>
      match s with
      | [] => None
      | c :: r =>
          if c =? 34 then Some ([], r)
          else if c =? 92 then
            match r with
            | [] => None
            | e :: r1 =>
                if e =? 117 then
                  match hex4 r1 with
                  | None => None
                  | Some (hi, r2) =>
                      if in_range 55296 56319 hi && startswith [92; 117] r2
                      then
                        match hex4 (skipn 2 r2) with
                        | None => None
                        | Some (lo, r3) =>
                            if in_range 56320 57343 lo then
                              push (65536 + (hi - 55296) * 1024 + (lo - 56320))
                                   (scan_string fuel r3)
                            else push hi (scan_string fuel r2)
                        end
                      else push hi (scan_string fuel r2)
                  end
                else
                  match simple_escape e with
                  | Some x => push x (scan_string fuel r1)
                  | None => None
                  end
            end
          else if c <? 32 then None
          else push c (scan_string fuel r)
      end
  end.

Fixpoint scan_digits (s : str) (acc : N) : N * str :=
  match s with
  | c :: r => if in_range 48 57 c then scan_digits r (acc * 10 + (c - 48))
              else (acc, s)
  | [] => (acc, [])
  end.

(** An integer literal; a literal that goes on as a fraction or an exponent
    is a float, for which this instance has no answer. *)
Definition scan_int (s : str) : option (Z * str) :=
  let '(neg, body) := match s with
                      | 45 :: r => (true, r)
                      | _ => (false, s)
                      end in
  match body with
  | [] => None
  | d :: r =>
      if in_range 48 57 d then
        let '(n, rest) := if d =? 48 then (0, r) else scan_digits body 0 in
        match rest with
        | 46 :: _ | 101 :: _ | 69 :: _ => None
        | _ => Some (if neg then (- Z.of_N n)%Z else Z.of_N n, rest)
        end
      else None
  end.

Fixpoint scan_value (fuel : nat) (s : str) : option (json * str) :=
  match fuel with
  | O => None
  | S fuel =>
      match s with
      | [] => None
      | c :: r =>
          if c =? 34 then
            match scan_string (length r) r with
            | Some (x, rest) => Some (JStr x, rest)
            | None => None
            end
          else if c =? 123 then
            let r := skip_ws r in
            if startswith [125] r then Some (JDict [], skipn 1 r)
            else scan_members fuel r []
          else if c =? 91 then
            let r := skip_ws r in
            if startswith [93] r then Some (JList [], skipn 1 r)
            else scan_items fuel r []
          else if startswith (lit "null") s then Some (JNull, skipn 4 s)
          else if startswith (lit "true") s then Some (JBool true, skipn 4 s)
          else if startswith (lit "false") s then Some (JBool false, skipn 5 s)
          else
            match scan_int s with
            | Some (n, rest) => Some (JInt n, rest)
            | None => None
            end
      end
  end

with scan_items (fuel : nat) (s : str) (acc : list json)
  : option (json * str) :=
  match fuel with
  | O => None
  | S fuel =>
      match scan_value fuel s with
      | None => None
      | Some (v, rest) =>
          match skip_ws rest with
          | 93 :: rest' => Some (JList (acc ++ [v]), rest')
          | 44 :: rest' => scan_items fuel (skip_ws rest') (acc ++ [v])
          | _ => None
          end
      end
  end

with scan_members (fuel : nat) (s : str) (acc : dict) : option (json * str) :=
  match fuel with
  | O => None
  | S fuel =>
      match s with
      | 34 :: r =>
          match scan_string (length r) r with
          | None => None
          | Some (k, rest) =>
              match skip_ws rest with
              | 58 :: rest1 =>
                  match scan_value fuel (skip_ws rest1) with
                  | None => None
                  | Some (v, rest2) =>
                      match skip_ws rest2 with
                      | 125 :: rest' =>
                          Some (JDict (dict_set acc k v), rest')
                      | 44 :: rest' =>
                          scan_members fuel (skip_ws rest') (dict_set acc k v)
                      | _ => None
                      end
                  end
              | _ => None
              end
          end
      | _ => None
      end
  end.

Definition loads (text : str) : option json :=
  match scan_value (2 * length text + 2) (skip_ws text) with
  | Some (v, rest) =>
      match skip_ws rest with
      | [] => Some v
      | _ :: _ => None
      end
  | None => None
  end.

Definition codec : Codec :=
  {| decode_text := utf8_decode;
     encode_text := utf8_encode;
     json_loads := loads;
     json_dumps := dumps |}.

End Json.

(** ** The marker rule in the words of the specification

    Follows the specification, not the source: every occurrence of the
    marker contributes the text between its end and the next line break,
    trimmed, when that text is not empty and begins with a slash. *)

Fixpoint take_while (f : char -> bool) (s : str) : str :=
  match s with
  | [] => []
  | c :: r => if f c then c :: take_while f r else []
  end.

Definition not_linebreak (c : char) : bool := negb (is_linebreak c).

Definition spec_candidate_at (content marker : str) : list str :=
  if startswith marker content then
    let rest :=
      strip (take_while not_linebreak (skipn (length marker) content)) in
    if startswith (lit "/") rest then [rest] else []
  else [].

Fixpoint spec_marker_candidates (content marker : str) : list str :=
  spec_candidate_at content marker
  ++ match content with
     | [] => []
     | _ :: rest => spec_marker_candidates rest marker
     end.

(** ** Worked records *)

Module Example.

(** An environment whose directories are [dirs], all of them in canonical
    form, whose files [readonly] cannot be opened for writing and whose
    configuration directory lists [listing]. *)
Definition env_of (dirs readonly listing : list str) : Env :=
  {| fs_is_abs_dir := fun p => existsb (str_eqb p) dirs;
     fs_resolve := fun p => p;
     fs_writable := fun p => negb (existsb (str_eqb p) readonly);
     fs_listing := fun _ => listing |}.

(** The bytes of an ASCII text in which each apostrophe stands for a
    double quote. *)
Definition text (s : string) : bytes :=
  map (fun a => if Ascii.eqb a "'"%char then Byte.x22
                else Ascii.byte_of_ascii a)
      (list_ascii_of_string s).

Fixpoint disk_of (files : list (string * string)) : Disk :=
  match files with
  | [] => fun _ => None
  | (name, content) :: rest =>
      set_file (disk_of rest) (lit name) (text content)
  end.

Definition two_declarations : str :=
  lit "Project set to /a" ++ [10%N] ++ lit "Project set to /b".

Definition declaration_on_next_line : str :=
  lit "Project set to" ++ [10%N] ++ lit "/b".

Definition tmp_env : Env := env_of [lit "/tmp"] [] [lit "/cfg/context-1.json"].
Definition bare_env : Env := env_of [] [] [lit "/cfg/context-1.json"].

(** A record whose title is a directory and one of whose fields holds an
    escaped surrogate. *)
Definition surrogate_disk : Disk :=
  disk_of [("/cfg/context-1.json"%string,
            "{'title':'/tmp','note':'\ud800'}"%string)].

Definition record_1 : str := lit "/cfg/context-1.json".
Definition record_2 : str := lit "/cfg/context-2.json".
Definition record_3 : str := lit "/cfg/context-3.json".

Definition two_dirs_env : Env :=
  env_of [lit "/tmp"; lit "/elsewhere"] [] [record_1].

(** A record that already has its [project_path], next to a title and a
    turn that name another directory. *)
Definition resolved_disk : Disk :=
  disk_of [("/cfg/context-1.json"%string,
            "{'project_path':'/tmp','title':'/elsewhere','turns':[{'content':'Project set to /elsewhere'}]}"%string)].

(** A file that is no JSON text. *)
Definition garbage_disk : Disk :=
  disk_of [("/cfg/context-1.json"%string, "not json"%string)].

(** Three records: one to update, one that is no JSON text, one whose
    text cannot be encoded once rewritten. *)
Definition batch_env : Env :=
  env_of [lit "/tmp"] [] [record_1; record_2; record_3].

Definition batch_disk : Disk :=
  disk_of [("/cfg/context-1.json"%string, "{'title':'/tmp'}"%string);
           ("/cfg/context-2.json"%string, "not json"%string);
           ("/cfg/context-3.json"%string,
            "{'title':'/tmp','note':'\ud800'}"%string)].

(** A record with a title, a turn with text and a turn without, none of
    them naming a path. *)
Definition plain_disk : Disk :=
  disk_of [("/cfg/context-1.json"%string,
            "{'title':'notes','turns':[{'content':'hello there'},{'role':'user'},7]}"%string)].

Definition plain_payload : dict :=
  [(lit "title", JStr (lit "notes"));
   (lit "turns",
    JList [JDict [(lit "content", JStr (lit "hello there"))];
           JDict [(lit "role", JStr (lit "user"))];
           JInt 7])].

(** Two candidates of equal score, neither of them a directory of
    [bare_env]. *)
Definition tie_payload : dict :=
  [(lit "turns",
    JList [JDict [(lit "content", JStr (lit "see /elsewhere or /elsewherf"))]])].

(** A system without a user [nosuchuser], and a record whose
    [project_path] names that user's home. *)
Definition ghost_user : Faults :=
  {| dir_test_raises := startswith (lit "~nosuchuser");
     write_room := fun _ => None |}.

Definition ghost_user_disk : Disk :=
  disk_of [("/cfg/context-1.json"%string,
            "{'project_path':'~nosuchuser/x'}"%string)].

(** A system that takes ten bytes for each file. *)
Definition ten_bytes : Faults :=
  {| dir_test_raises := fun _ => false; write_room := fun _ => Some 10%nat |}.

Definition resolved_payload : dict :=
  [(lit "project_path", JStr (lit "/tmp"));
   (lit "title", JStr (lit "/elsewhere"));
   (lit "turns",
    JList [JDict [(lit "content", JStr (lit "Project set to /elsewhere"))]])].

(** What [json.loads] makes of that record. *)
Definition surrogate_payload : dict :=
  [(lit "title", JStr (lit "/tmp")); (lit "note", JStr [55296%N])].

End Example.

(** ** The benchmark runner (scripts/zbench.py)

    The part of [run_benchmark] that prepares what is piped to the agent:
    the prompt read from the file is trimmed, each line feed in it is
    replaced by a backslash and the letter n, and the text sent is that
    prompt on one line followed by the [/quit] command. *)

(** [s.replace("\n", "\\n")] *)
Definition escape_newlines (s : str) : str :=
  flat_map (fun c => if (c =? 10)%N then [92%N; 110%N] else [c]) s.

(** [prompt], from the text [f.read()] of the prompt file *)
Definition flatten_prompt (file_text : str) : str :=
  let raw_prompt := strip file_text in
  escape_newlines raw_prompt.

(** [prompt + "\n/quit\n"] *)
Definition agent_input (file_text : str) : str :=
  flatten_prompt file_text ++ [10%N] ++ lit "/quit" ++ [10%N].

(** ** Auxiliary notions for the statements

    The texts a record offers as evidence: its title when it is a string,
    and the [content] of each turn that is an object with a string
    content. These name what the loops of [infer_project_path] read; the
    loops themselves are [collect] and [scan_turns] above. *)

Fixpoint turn_contents (turns : list json) : list str :=
  match turns with
  | [] => []
  | JDict turn :: rest =>
      match dict_get turn (lit "content") with
      | Some (JStr content) => content :: turn_contents rest
      | _ => turn_contents rest
      end
  | _ :: rest => turn_contents rest
  end.

Definition title_text (payload : dict) : list str :=
  match dict_get payload (lit "title") with
  | Some (JStr title) => [title]
  | _ => []
  end.

Definition contents (payload : dict) : list str :=
  match dict_get payload (lit "turns") with
  | Some (JList items) => turn_contents items
  | _ => []
  end.

Definition no_slash (s : str) : bool :=
  forallb (fun c => negb (c =? 47)%N) s.

(** [x] is a contiguous part of [s]. *)
Definition occurs_in (x s : str) : Prop :=
  exists pre post, s = pre ++ x ++ post.

(** * Properties *)

Unset Implicit Arguments.

(** ** Text primitives *)

Lemma str_eqb_eq (a b : str) : str_eqb a b = true <-> a = b.
Proof.
  revert b; induction a as [|x a IH]; intros [|y b]; simpl;
    try (split; [discriminate | discriminate]); try tauto.
  rewrite andb_true_iff, N.eqb_eq, IH.
  split; [intros [-> ->]; reflexivity | intros H; inversion H; auto].
Qed.

Lemma str_eqb_refl (a : str) : str_eqb a a = true.
Proof. apply str_eqb_eq; reflexivity. Qed.

Lemma str_eqb_neq (a b : str) : a <> b -> str_eqb a b = false.
Proof.
  intros H; destruct (str_eqb a b) eqn:E; auto.
  apply str_eqb_eq in E; contradiction.
Qed.

Lemma startswith_spec (p s : str) :
  startswith p s = true <-> exists r, s = p ++ r.
Proof.
  revert s; induction p as [|x p IH]; intros s; simpl.
  - split; [intros _; exists s; reflexivity | reflexivity].
  - destruct s as [|y s].
    + split; [discriminate | intros [r H]; discriminate].
    + rewrite andb_true_iff, N.eqb_eq, IH.
      split.
      * intros [-> [r ->]]; exists r; reflexivity.
      * intros [r H]; inversion H; subst; split; [reflexivity | exists r; reflexivity].
Qed.

Lemma startswith_app (p r : str) : startswith p (p ++ r) = true.
Proof. apply startswith_spec; exists r; reflexivity. Qed.

Lemma find_lower (s sub : str) : (-1 <= find s sub)%Z.
Proof.
  induction s as [|c s IH]; simpl.
  - destruct (startswith sub []); lia.
  - destruct (startswith sub (c :: s)); [lia|].
    destruct (find s sub <? 0)%Z eqn:E; [lia|]. apply Z.ltb_ge in E; lia.
Qed.

(** [find] answers the first index at which the needle starts. *)
Lemma find_some (s sub : str) (i : nat) :
  find s sub = Z.of_nat i <->
  startswith sub (skipn i s) = true /\
  (i <= length s)%nat /\
  forall j, (j < i)%nat -> startswith sub (skipn j s) = false.
Proof.
  revert i; induction s as [|c s IH]; intros i.
  - simpl find. destruct (startswith sub []) eqn:E.
    + split.
      * intros H; assert (i = 0%nat) by lia; subst; simpl.
        repeat split; auto; intros j Hj; lia.
      * intros (H1 & H2 & H3); simpl in H2.
        assert (i = 0%nat) by lia; subst; reflexivity.
    + split; [lia|].
      intros (H1 & H2 & H3). destruct i; simpl in H1; congruence.
  - simpl find. destruct (startswith sub (c :: s)) eqn:E.
    + split.
      * intros H; assert (i = 0%nat) by lia; subst; simpl.
        repeat split; auto; [lia | intros j Hj; lia].
      * intros (H1 & H2 & H3). destruct i; [reflexivity|].
        specialize (H3 0%nat ltac:(lia)); simpl in H3; congruence.
    + pose proof (find_lower s sub) as Hl.
      destruct (find s sub <? 0)%Z eqn:F.
      * apply Z.ltb_lt in F.
        split; [lia|]. intros (H1 & H2 & H3).
        destruct i; [simpl in H1; congruence|].
        simpl in H1, H2.
        assert (find s sub = Z.of_nat i) as K.
        { apply IH; repeat split; auto; [lia|].
          intros j Hj; apply (H3 (S j)); lia. }
        lia.
      * apply Z.ltb_ge in F.
        destruct i.
        { split; [lia|]. intros (H1 & _); simpl in H1; congruence. }
        replace (find s sub + 1 = Z.of_nat (S i))%Z
          with (find s sub + 1 = Z.of_nat i + 1)%Z by (f_equal; lia).
        rewrite Z.add_cancel_r, IH. simpl.
        split; intros (H1 & H2 & H3); repeat split; auto; try lia.
        -- intros [|j] Hj; [exact E | apply H3; lia].
        -- intros j Hj; apply (H3 (S j)); lia.
Qed.

Lemma find_none (s sub : str) :
  find s sub = (-1)%Z <->
  forall j, (j <= length s)%nat -> startswith sub (skipn j s) = false.
Proof.
  induction s as [|c s IH]; simpl find.
  - destruct (startswith sub []) eqn:E.
    + split; [lia|]. intros H; specialize (H 0%nat ltac:(simpl; lia)).
      simpl in H; congruence.
    + split; [|reflexivity]. intros _ j Hj. simpl in Hj.
      assert (j = 0%nat) by lia; subst; exact E.
  - destruct (startswith sub (c :: s)) eqn:E.
    + split; [lia|]. intros H; specialize (H 0%nat ltac:(simpl; lia)).
      simpl in H; congruence.
    + pose proof (find_lower s sub) as Hl.
      destruct (find s sub <? 0)%Z eqn:F.
      * apply Z.ltb_lt in F. assert (find s sub = (-1)%Z) as K by lia.
        split; [|reflexivity]. intros _ [|j] Hj; [exact E|].
        simpl in *. apply IH; [exact K | lia].
      * apply Z.ltb_ge in F. split; [lia|].
        intros H. assert (find s sub = (-1)%Z); [|lia].
        apply IH. intros j Hj. apply (H (S j)). simpl; lia.
Qed.

Lemma skipn_app_exact {A} (l1 l2 : list A) : skipn (length l1) (l1 ++ l2) = l2.
Proof. induction l1; simpl; auto. Qed.

(** [sub in s] holds exactly when [s] has [sub] as a contiguous part. *)
Lemma contains_spec (sub s : str) :
  contains sub s = true <-> exists pre post, s = pre ++ sub ++ post.
Proof.
  unfold contains. rewrite Z.leb_le. split.
  - intros H. pose proof (find_lower s sub).
    destruct (find s sub) as [|p|p] eqn:E; try lia.
    + assert (find s sub = Z.of_nat 0) as K by (rewrite E; reflexivity).
      apply find_some in K. destruct K as (K & _). simpl in K.
      apply startswith_spec in K. destruct K as [r ->].
      exists [], r; reflexivity.
    + assert (find s sub = Z.of_nat (Pos.to_nat p)) as K
          by (rewrite E; lia).
      apply find_some in K. destruct K as (K & _).
      apply startswith_spec in K. destruct K as [r K].
      exists (firstn (Pos.to_nat p) s), r.
      rewrite <- K. symmetry; apply firstn_skipn.
  - intros (pre & post & ->).
    destruct (Z.eq_dec (find (pre ++ sub ++ post) sub) (-1)) as [K|K].
    + rewrite find_none in K. specialize (K (length pre)).
      rewrite skipn_app_exact, startswith_app in K.
      rewrite length_app in K. specialize (K ltac:(lia)). discriminate.
    + pose proof (find_lower (pre ++ sub ++ post) sub). lia.
Qed.


(** ** Trimming and first lines *)

Lemma linebreak_is_space (c : char) :
  is_linebreak c = true -> is_space c = true.
Proof.
  unfold is_linebreak, is_space, in_range.
  rewrite !orb_true_iff, !andb_true_iff, !N.leb_le, !N.eqb_eq. lia.
Qed.

Lemma take_while_lstrip (f : char -> bool) (s : str) :
  s = take_while f s ++ lstrip_by f s.
Proof.
  induction s as [|c s IH]; simpl; auto.
  destruct (f c); simpl; [f_equal; exact IH | reflexivity].
Qed.

Lemma take_while_all (f : char -> bool) (s : str) :
  forallb f (take_while f s) = true.
Proof.
  induction s as [|c s IH]; simpl; auto.
  destruct (f c) eqn:E; simpl; auto. rewrite E; exact IH.
Qed.

Lemma lstrip_head (f : char -> bool) (s : str) :
  lstrip_by f s = [] \/ exists c r, lstrip_by f s = c :: r /\ f c = false.
Proof.
  induction s as [|c s IH]; simpl; auto.
  destruct (f c) eqn:E; auto. right; exists c, s; auto.
Qed.

Lemma lstrip_app (f : char -> bool) (gap s : str) :
  forallb f gap = true -> lstrip_by f (gap ++ s) = lstrip_by f s.
Proof.
  induction gap as [|c gap IH]; simpl; auto.
  rewrite andb_true_iff; intros [-> H]; auto.
Qed.

Lemma take_while_app (f : char -> bool) (body rest : str) :
  forallb f body = true ->
  (rest = [] \/ exists b r, rest = b :: r /\ f b = false) ->
  take_while f (body ++ rest) = body.
Proof.
  intros Hb Hr. induction body as [|c body IH]; simpl in *.
  - destruct Hr as [-> | (b & r & -> & Hf)]; simpl; auto. rewrite Hf; auto.
  - apply andb_true_iff in Hb. destruct Hb as [-> Hb]. f_equal; auto.
Qed.

Lemma rstrip_nil (f : char -> bool) (s : str) :
  rstrip_by f s = [] <-> forallb f s = true.
Proof.
  induction s as [|c s IH]; simpl; [tauto|].
  destruct (rstrip_by f s) eqn:E.
  - destruct (f c); simpl.
    + split; auto. intros _; apply IH; reflexivity.
    + split; discriminate.
  - split; [discriminate|]. rewrite andb_true_iff. intros [_ H].
    apply IH in H; discriminate.
Qed.

Lemma rstrip_cons_keep (f : char -> bool) (c : char) (s : str) :
  f c = false -> exists r, rstrip_by f (c :: s) = c :: r.
Proof.
  intros H; simpl. destruct (rstrip_by f s); rewrite ?H; eauto.
Qed.

Lemma rstrip_head (f : char -> bool) (c : char) (s r : str) :
  rstrip_by f s = c :: r -> exists s', s = c :: s'.
Proof.
  destruct s as [|x s]; simpl; [discriminate|].
  destruct (rstrip_by f s); [destruct (f x)|]; intros H; inversion H; eauto.
Qed.

Lemma forallb_take_while (f g : char -> bool) (s : str) :
  forallb f s = true -> forallb f (take_while g s) = true.
Proof.
  induction s as [|c s IH]; simpl; auto.
  rewrite andb_true_iff; intros [Hc Hs].
  destruct (g c); simpl; auto. rewrite Hc; auto.
Qed.

(** The first line of a text is what precedes its first line boundary. *)
Lemma first_line_take_while (s : str) :
  hd [] (splitlines s) = take_while not_linebreak s.
Proof.
  induction s as [|c s IH]; simpl; auto.
  unfold not_linebreak at 1. destruct (is_linebreak c); simpl; auto.
  rewrite <- IH. destruct (splitlines s); reflexivity.
Qed.

(** Trimming the end of a text does not change its trimmed first line. *)
Lemma rstrip_first_line (s : str) :
  rstrip_by is_space (take_while not_linebreak (rstrip_by is_space s))
  = rstrip_by is_space (take_while not_linebreak s).
Proof.
  induction s as [|c s IH]; auto.
  destruct (not_linebreak c) eqn:Hc.
  - cbn [rstrip_by take_while]. rewrite Hc.
    destruct (rstrip_by is_space s) as [|x r] eqn:E.
    + assert (rstrip_by is_space (take_while not_linebreak s) = []) as K.
      { apply rstrip_nil, forallb_take_while, rstrip_nil, E. }
      destruct (is_space c) eqn:Sc; cbn [rstrip_by take_while];
        rewrite ?Hc; cbn [rstrip_by]; rewrite K, ?Sc; reflexivity.
    + cbn [take_while]. rewrite Hc. cbn [rstrip_by].
      rewrite <- IH. reflexivity.
  - cbn [take_while]. rewrite Hc. cbn [rstrip_by].
    destruct (rstrip_by is_space s) eqn:E.
    + unfold not_linebreak in Hc. apply negb_false_iff in Hc.
      rewrite (linebreak_is_space _ Hc). reflexivity.
    + cbn [take_while]. rewrite Hc. reflexivity.
Qed.

Lemma strip_slash_first (s : str) :
  startswith (lit "/") s = true -> strip s = rstrip_by is_space s.
Proof.
  intros H. apply startswith_spec in H. destruct H as [r ->].
  reflexivity.
Qed.

Lemma skipn_add {A} (n m : nat) (l : list A) :
  skipn (n + m) l = skipn m (skipn n l).
Proof.
  revert l; induction n as [|n IH]; intros l; simpl; auto.
  destruct l; simpl; [destruct m; reflexivity | apply IH].
Qed.

(** ** The marker rule of the extractor *)

(** What the rule computes once the marker is found at [pre]: the text
    after the marker is [tail]. *)
Lemma marker_line (tail : str) :
  startswith (lit "/") (strip tail) = true ->
  let x := lstrip_by is_space tail in
  let body := take_while not_linebreak x in
  startswith (lit "/") body = true /\
  strip (hd [] (splitlines (strip tail))) = strip body /\
  strip body <> [].
Proof.
  intros H x body. unfold strip in H. fold x in H.
  apply startswith_spec in H. destruct H as [r Hr]. simpl in Hr.
  destruct (rstrip_head _ _ _ _ Hr) as [x' Hx].
  assert (startswith (lit "/") body = true) as Hb.
  { unfold body. rewrite Hx. reflexivity. }
  split; [exact Hb|]. split.
  - rewrite first_line_take_while.
    unfold strip at 2. fold x. rewrite Hr.
    rewrite (strip_slash_first _ Hb).
    rewrite strip_slash_first by reflexivity.
    rewrite <- Hr. apply rstrip_first_line.
  - rewrite (strip_slash_first _ Hb).
    apply startswith_spec in Hb. destruct Hb as [b ->]. simpl app.
    destruct (rstrip_cons_keep is_space 47%N b eq_refl) as [t ->].
    discriminate.
Qed.

(** C1, counterexample: with two declarations in one turn the source keeps
    the first only, where the rule as specified keeps both; and it takes a
    path that starts on the line after the marker, where the rule as
    specified takes nothing. *)
Lemma marker_rule_differs_from_spec :
  marker_candidates Example.two_declarations (lit "Project set to")
    = [lit "/a"]
  /\ spec_marker_candidates Example.two_declarations (lit "Project set to")
    = [lit "/a"; lit "/b"]
  /\ marker_candidates Example.declaration_on_next_line (lit "Project set to")
    = [lit "/b"]
  /\ spec_marker_candidates Example.declaration_on_next_line
       (lit "Project set to") = [].
Proof. repeat split; vm_compute; reflexivity. Qed.

(** C1, amended: only the first occurrence of the marker counts. The text
    after it is trimmed on both sides, line breaks included, and when it
    then begins with a slash its first line, trimmed, is the one candidate
    of that marker for the turn. *)
Theorem marker_rule_first_occurrence (content marker c : str) :
  (length (marker_candidates content marker) <= 1)%nat /\
  (In c (marker_candidates content marker) <->
   exists pre gap body rest,
     content = pre ++ marker ++ gap ++ body ++ rest /\
     (forall j, (j < length pre)%nat ->
                startswith marker (skipn j content) = false) /\
     forallb is_space gap = true /\
     startswith (lit "/") body = true /\
     forallb not_linebreak body = true /\
     (rest = [] \/ exists b r, rest = b :: r /\ is_linebreak b = true) /\
     c = strip body).
Proof.
  split.
  { unfold marker_candidates.
    destruct (0 <=? find content marker)%Z; [|simpl; lia].
    cbv zeta. destruct (startswith (lit "/") _); [|simpl; lia].
    destruct (strip _); simpl; lia. }
  unfold marker_candidates. split.
  - destruct (0 <=? find content marker)%Z eqn:Hidx; [|intros []].
    apply Z.leb_le in Hidx.
    set (i := Z.to_nat (find content marker)).
    assert (find content marker = Z.of_nat i) as Hi by (unfold i; lia).
    destruct (proj1 (find_some content marker i) Hi) as (Hs & Hlen & Hfirst).
    apply startswith_spec in Hs. destruct Hs as [tail Htail].
    assert (slice_from (find content marker + len marker) content = tail) as Hsl.
    { unfold slice_from, len. rewrite Hi, <- Nat2Z.inj_add, Nat2Z.id.
      rewrite skipn_add, Htail. apply skipn_app_exact. }
    rewrite Hsl.
    destruct (startswith (lit "/") (strip tail)) eqn:Hm; [|intros []].
    destruct (marker_line tail Hm) as (Hb & Hline & Hne).
    rewrite Hline.
    destruct (strip (take_while not_linebreak (lstrip_by is_space tail)))
      as [|x l] eqn:El; [intros []|].
    intros [<- | []].
    exists (firstn i content), (take_while is_space tail),
      (take_while not_linebreak (lstrip_by is_space tail)),
      (lstrip_by not_linebreak (lstrip_by is_space tail)).
    assert (length (firstn i content) = i) as Hfl
        by (apply firstn_length_le; exact Hlen).
    repeat split.
    + rewrite <- take_while_lstrip, <- take_while_lstrip, <- Htail.
      symmetry; apply firstn_skipn.
    + rewrite Hfl; exact Hfirst.
    + apply take_while_all.
    + exact Hb.
    + apply take_while_all.
    + destruct (lstrip_head not_linebreak (lstrip_by is_space tail))
        as [-> | (b & r & -> & Hbr)]; [left; reflexivity|].
      right; exists b, r; split; auto.
      unfold not_linebreak in Hbr. apply negb_false_iff in Hbr; exact Hbr.
    + symmetry; exact El.
  - intros (pre & gap & body & rest & Hc & Hfirst & Hgap & Hb & Hnb & Hrest & ->).
    assert (find content marker = Z.of_nat (length pre)) as Hi.
    { apply find_some. repeat split; auto.
      - rewrite Hc, skipn_app_exact. apply startswith_app.
      - rewrite Hc, length_app; lia. }
    rewrite Hi. replace (0 <=? Z.of_nat (length pre))%Z with true
      by (symmetry; apply Z.leb_le; lia).
    assert (slice_from (Z.of_nat (length pre) + len marker) content
            = gap ++ body ++ rest) as Hsl.
    { unfold slice_from, len. rewrite <- Nat2Z.inj_add, Nat2Z.id.
      rewrite skipn_add, Hc, skipn_app_exact. apply skipn_app_exact. }
    rewrite Hsl.
    assert (lstrip_by is_space (gap ++ body ++ rest) = body ++ rest) as Hl.
    { rewrite lstrip_app by exact Hgap.
      apply startswith_spec in Hb. destruct Hb as [b ->]. reflexivity. }
    assert (take_while not_linebreak (body ++ rest) = body) as Htw.
    { apply take_while_app; auto.
      destruct Hrest as [-> | (b & r & -> & Hbr)]; auto.
      right; exists b, r; split; auto. unfold not_linebreak; rewrite Hbr; auto. }
    assert (startswith (lit "/") (strip (gap ++ body ++ rest)) = true) as Hm.
    { unfold strip. rewrite Hl.
      apply startswith_spec in Hb. destruct Hb as [b ->]. simpl app.
      destruct (rstrip_cons_keep is_space 47%N (b ++ rest) eq_refl) as [t ->].
      reflexivity. }
    rewrite Hm.
    destruct (marker_line _ Hm) as (_ & Hline & Hne).
    rewrite Hl, Htw in Hline, Hne. rewrite Hline.
    destruct (strip body); [congruence | left; reflexivity].
Qed.

Lemma marker_rule_first_occurrence_witness :
  In (lit "/b")
     (marker_candidates Example.declaration_on_next_line (lit "Project set to")).
Proof.
  apply (marker_rule_first_occurrence Example.declaration_on_next_line
           (lit "Project set to") (lit "/b")).
  exists [], [10%N], (lit "/b"), [].
  repeat split; try reflexivity.
  - intros j Hj; simpl in Hj; lia.
  - left; reflexivity.
Defined.

(** ** The scorer *)

Lemma marker_bonus_sum (p : str -> bool) (markers : list str) (score : Z) :
  fold_left (fun score marker => if p marker then (score + 50)%Z else score)
            markers score
  = (score + 50 * Z.of_nat (length (filter p markers)))%Z.
Proof.
  revert score; induction markers as [|m markers IH]; intros score;
    cbn [fold_left filter].
  - cbn [length]; lia.
  - rewrite IH. destruct (p m); cbn [length]; lia.
Qed.

(** C2, counterexample: the same candidate and the same context score 30
    where the candidate is a directory and 20 where it is not. *)
Lemma score_depends_on_directories :
  score_candidate Example.tmp_env (lit "/tmp") [] = 30%Z
  /\ score_candidate Example.bare_env (lit "/tmp") [] = 20%Z.
Proof. split; vm_compute; reflexivity. Qed.

(** C2, amended: the score is a function of the candidate, of the context
    and of the answer of the directory test on the candidate; two
    environments that agree on that answer give the same score. *)
Theorem score_determined (e1 e2 : Env) (path context_text : str) :
  is_abs_dir e1 path = is_abs_dir e2 path ->
  score_candidate e1 path context_text = score_candidate e2 path context_text.
Proof.
  intros H. unfold score_candidate. rewrite H. reflexivity.
Qed.

Lemma score_determined_witness :
  is_abs_dir Example.tmp_env (lit "/srv") = is_abs_dir Example.bare_env (lit "/srv")
  /\ score_candidate Example.tmp_env (lit "/srv") (lit "Project set to /srv")
     = score_candidate Example.bare_env (lit "/srv") (lit "Project set to /srv").
Proof.
  split; [reflexivity|].
  apply (score_determined Example.tmp_env Example.bare_env); reflexivity.
Defined.

(** C3: the score is the sum of the four components: 10 for a directory,
    50 for each marker that the context holds followed by one space and the
    candidate, 2 for a candidate that holds [/home/], and the length prior
    [max(0, 20 - len // 8)]. *)
Theorem score_components (e : Env) (c t : str) :
  score_candidate e c t
  = ((if is_abs_dir e c then 10 else 0)
     + 50 * Z.of_nat
              (length (filter (fun m : str => contains (m ++ lit " " ++ c) t)
                              PROJECT_ROOT_MARKERS))
     + (if contains (lit "/home/") c then 2 else 0)
     + Z.max 0 (20 - Z.of_nat (length c) / 8))%Z.
Proof.
  unfold score_candidate.
  rewrite (marker_bonus_sum (fun m => contains (m ++ lit " " ++ c) t)).
  unfold len. destruct (is_abs_dir e c), (contains (lit "/home/") c); lia.
Qed.

(** A directory scores at least the threshold. *)
Lemma score_of_directory (e : Env) (c t : str) :
  is_abs_dir e c = true -> (10 <= score_candidate e c t)%Z.
Proof.
  intros H. unfold score_candidate.
  rewrite (marker_bonus_sum (fun m => contains (m ++ lit " " ++ c) t)), H.
  destruct (contains (lit "/home/") c); lia.
Qed.

(** ** The ranker *)

Lemma in_insert_desc (x y : Z * str) (l : list (Z * str)) :
  In x (insert_desc y l) <-> x = y \/ In x l.
Proof.
  induction l as [|z l IH]; simpl.
  - intuition congruence.
  - destruct (fst y <? fst z)%Z; simpl; rewrite ?IH; intuition congruence.
Qed.

Lemma in_sort_desc (x : Z * str) (l : list (Z * str)) :
  In x (sort_desc l) <-> In x l.
Proof.
  induction l as [|y l IH]; simpl; [tauto|].
  rewrite in_insert_desc, IH. intuition congruence.
Qed.

Lemma insert_desc_top (y : Z * str) (l : list (Z * str)) :
  (forall x, In x l -> (fst x <= fst (hd y l))%Z) ->
  forall x, In x (insert_desc y l) ->
            (fst x <= fst (hd y (insert_desc y l)))%Z.
Proof.
  destruct l as [|z l]; simpl.
  - intros _ x [<- | []]; lia.
  - intros H x. destruct (fst y <? fst z)%Z eqn:E; simpl.
    + apply Z.ltb_lt in E. rewrite in_insert_desc.
      intros [<- | [-> | Hx]]; try lia. apply H; auto.
    + apply Z.ltb_ge in E.
      intros [<- | Hx]; [lia|]. specialize (H x Hx). lia.
Qed.

(** After the sort no entry scores more than the first one. *)
Lemma sort_desc_top (l : list (Z * str)) (top : Z * str) (rest : list (Z * str)) :
  sort_desc l = top :: rest ->
  forall x, In x l -> (fst x <= fst top)%Z.
Proof.
  revert top rest; induction l as [|y l IH]; intros top rest.
  - discriminate.
  - intros E x Hx.
    change (insert_desc y (sort_desc l) = top :: rest) in E.
    assert (In x (insert_desc y (sort_desc l))) as Hin.
    { rewrite in_insert_desc, in_sort_desc. destruct Hx; auto. }
    pose proof (insert_desc_top y (sort_desc l)) as T.
    rewrite E in T. cbn [hd] in T. apply T; [|rewrite <- E; exact Hin].
    intros z Hz. destruct (sort_desc l) as [|t r] eqn:S; [destruct Hz|].
    simpl. apply (IH t r eq_refl). apply in_sort_desc. rewrite S; exact Hz.
Qed.

Lemma rank_loop_entry (e : Env) (blob : str) (cands seen : list str)
      (s : Z) (c : str) :
  In (s, c) (rank_loop e blob cands seen) ->
  s = score_candidate e c blob /\ In c cands.
Proof.
  revert seen; induction cands as [|x cands IH]; intros seen; simpl.
  - intros [].
  - destruct (existsb (str_eqb x) seen).
    + intros H; destruct (IH _ H); auto.
    + intros [H | H].
      * inversion H; subst; auto.
      * destruct (IH _ H); auto.
Qed.

(** Every entry of the ranking is a candidate with its score. *)
Lemma ranked_entry (e : Env) (payload : dict) (s : Z) (c : str) :
  In (s, c) (ranked e payload) ->
  s = score_candidate e c (snd (collect payload))
  /\ In c (fst (collect payload)).
Proof.
  unfold ranked. destruct (collect payload) as [cands blob]; simpl.
  rewrite in_sort_desc. apply rank_loop_entry.
Qed.

Lemma existing_dir_is_dir (e : Env) (payload : dict) (p : str) :
  existing_dir e payload = Some p ->
  dict_get payload (lit "project_path") = Some (JStr p)
  /\ is_abs_dir e p = true.
Proof.
  unfold existing_dir.
  destruct (dict_get payload (lit "project_path")) as [[]|]; try discriminate.
  destruct (is_abs_dir e s) eqn:E; try discriminate.
  intros H; inversion H; subst; auto.
Qed.

(** What [infer_project_path] answers, by cases. *)
Lemma infer_cases (e : Env) (payload : dict) (r : str) :
  infer_project_path e payload = Some r ->
  exists p, r = normalize_path e p /\ is_abs_dir e p = true /\
    (existing_dir e payload = Some p \/
     existing_dir e payload = None /\
     exists sc rest, ranked e payload = (sc, p) :: rest /\ (10 <= sc)%Z).
Proof.
  unfold infer_project_path.
  destruct (existing_dir e payload) as [p|] eqn:Ex.
  - intros H; inversion H; subst. exists p.
    destruct (existing_dir_is_dir _ _ _ Ex); auto.
  - destruct (fst (collect payload)); [discriminate|].
    destruct (ranked e payload) as [|[sc best] rest] eqn:R; [discriminate|].
    destruct (sc <? 10)%Z eqn:T; [discriminate|].
    destruct (is_abs_dir e best) eqn:D; simpl; [|discriminate].
    intros H; inversion H; subst. exists best.
    apply Z.ltb_ge in T. repeat split; auto.
    right; split; auto. exists sc, rest; auto.
Qed.

(** ** The record processor *)

(** C5: a record whose [project_path] is a string that passes the
    directory test is skipped with the normal form of that value; nothing
    is written, so the file and with it every field of the record stay as
    they were, whatever the title and the turns say. *)
Theorem existing_path_is_authoritative
    (c : Codec) (e : Env) (path : str) (write verbose : bool) (d : Disk)
    (payload : dict) (existing : str) :
  read_json c d path = Some (JDict payload) ->
  dict_get payload (lit "project_path") = Some (JStr existing) ->
  is_abs_dir e existing = true ->
  process_file c e path write verbose d
  = ((Skipped, Some (normalize_path e existing)), d, []).
Proof.
  intros Hread Hget Hdir. unfold process_file, existing_dir.
  rewrite Hread, Hget, Hdir. reflexivity.
Qed.

Lemma existing_path_is_authoritative_witness :
  process_file Json.codec Example.two_dirs_env Example.record_1 true true
               Example.resolved_disk
  = ((Skipped, Some (lit "/tmp")), Example.resolved_disk, []).
Proof.
  apply (existing_path_is_authoritative Json.codec Example.two_dirs_env
           Example.record_1 true true Example.resolved_disk
           Example.resolved_payload (lit "/tmp"));
    vm_compute; reflexivity.
Defined.

(** Without the write flag a call leaves the disk as it found it. *)
Lemma process_file_dry (c : Codec) (e : Env) (path : str) (verbose : bool)
      (d : Disk) :
  result_disk (process_file c e path false verbose d) = d.
Proof.
  unfold process_file, result_disk.
  destruct (read_json c d path) as [[]|]; try reflexivity.
  destruct (existing_dir e fields); try reflexivity.
  destruct (infer_project_path e fields) as [[|x r]|]; reflexivity.
Qed.

Lemma main_loop_dry (c : Codec) (e : Env) (verbose : bool) (files : list str)
      (d : Disk) (k : Counters) (out : list str) :
  fst (fst (main_loop c e false verbose files (d, k, out))) = d.
Proof.
  revert d k out; induction files as [|f files IH]; intros d k out; simpl; auto.
  pose proof (process_file_dry c e f verbose d) as H.
  destruct (process_file c e f false verbose d) as [[[st r] d'] printed].
  unfold result_disk in H; simpl in H; subst d'. apply IH.
Qed.

(** C7: in a dry run the bytes of every file are after the call what they
    were before it, for one record and for the whole batch, whatever
    status is reported. *)
Theorem dry_run_purity (c : Codec) (e : Env) (verbose : bool) (d : Disk) :
  (forall path, result_disk (process_file c e path false verbose d) = d)
  /\ (forall config_dir, final_disk (main c e config_dir false verbose d) = d).
Proof.
  split.
  - intros path; apply process_file_dry.
  - intros config_dir. unfold main.
    pose proof (main_loop_dry c e verbose (fs_listing e config_dir) d
                  (mkCounters 0 0 0 0) []) as H.
    destruct (main_loop c e false verbose (fs_listing e config_dir)
                (d, mkCounters 0 0 0 0, [])) as [[d' k] out].
    exact H.
Qed.

(** C10: in a dry run a record fails exactly when reading it does not give
    a mapping, that is when the file cannot be read, decoded or parsed, or
    parses to something else than an object. *)
Theorem dry_run_failed_iff (c : Codec) (e : Env) (path : str) (verbose : bool)
    (d : Disk) :
  result_status (process_file c e path false verbose d) = Failed
  <-> forall payload, read_json c d path <> Some (JDict payload).
Proof.
  unfold process_file, result_status.
  destruct (read_json c d path) as [[]|]; simpl;
    try (split; [intros _ p; discriminate | reflexivity]).
  split.
  - destruct (existing_dir e fields); [discriminate|].
    destruct (infer_project_path e fields) as [[|x r]|]; discriminate.
  - intros H; exfalso; apply (H fields); reflexivity.
Qed.

Lemma dry_run_failed_iff_witness :
  result_status (process_file Json.codec Example.tmp_env Example.record_1
                              false false Example.garbage_disk) = Failed.
Proof.
  apply (dry_run_failed_iff Json.codec Example.tmp_env Example.record_1
           false Example.garbage_disk).
  intros payload; vm_compute; discriminate.
Defined.

(** ** The batch driver *)

(** One turn of the loop adds one to [scanned] and one to exactly one of
    the three other counters. *)
Lemma count_step (k : Counters) (status : Disposition) :
  scanned (count k status) = (scanned k + 1)%Z
  /\ (updated (count k status) + skipped (count k status)
      + failed (count k status)
      = updated k + skipped k + failed k + 1)%Z
  /\ (updated k <= updated (count k status))%Z
  /\ (skipped k <= skipped (count k status))%Z
  /\ (failed k <= failed (count k status))%Z.
Proof. destruct status; simpl; lia. Qed.


Lemma main_loop_disk (c : Codec) (e : Env) (write verbose : bool)
      (files : list str) (d : Disk) (k k' : Counters) (out out' : list str) :
  fst (fst (main_loop c e write verbose files (d, k, out)))
  = fst (fst (main_loop c e write verbose files (d, k', out'))).
Proof.
  revert d k k' out out'; induction files as [|f files IH];
    intros d k k' out out'; simpl; auto.
  destruct (process_file c e f write verbose d) as [[[st r] d'] printed].
  apply IH.
Qed.

Lemma dispositions_length (c : Codec) (e : Env) (write verbose : bool)
      (files : list str) (d : Disk) :
  length (dispositions c e write verbose files d) = length files.
Proof.
  revert d; induction files as [|f files IH]; intros d; simpl; auto.
  destruct (process_file c e f write verbose d) as [[[st r] d'] printed].
  simpl. f_equal. apply IH.
Qed.

Lemma tally_partition (l : list Disposition) (k : Counters) :
  let k' := fold_left count l k in
  (scanned k' = scanned k + Z.of_nat (length l))%Z
  /\ (updated k' + skipped k' + failed k'
      = updated k + skipped k + failed k + Z.of_nat (length l))%Z.
Proof.
  revert k; induction l as [|st l IH]; intros k; cbn [fold_left length].
  - cbv zeta; lia.
  - specialize (IH (count k st)). cbv zeta in *.
    destruct (count_step k st) as (H1 & H2 & _). lia.
Qed.


(** ** Writing a record back *)

Lemma set_file_same (d : Disk) (path : str) (b : bytes) :
  set_file d path b path = Some b.
Proof. unfold set_file. rewrite str_eqb_refl. reflexivity. Qed.

Lemma set_file_other (d : Disk) (path g : str) (b : bytes) :
  g <> path -> set_file d path b g = d g.
Proof. intros H. unfold set_file. rewrite (str_eqb_neq _ _ H). reflexivity. Qed.

(** The three ways [persist] can end. *)
Lemma persist_cases (c : Codec) (e : Env) (path : str) (payload : dict)
      (d : Disk) :
  (persist c e path payload d = (d, false)
   /\ (json_dumps c (JDict payload) = None \/ fs_writable e path = false))
  \/ (exists text,
        json_dumps c (JDict payload) = Some text
        /\ fs_writable e path = true
        /\ encode_text c (text ++ [10%N]) = None
        /\ persist c e path payload d = (set_file d path [], false))
  \/ (exists text b,
        json_dumps c (JDict payload) = Some text
        /\ fs_writable e path = true
        /\ encode_text c (text ++ [10%N]) = Some b
        /\ persist c e path payload d = (set_file d path b, true)).
Proof.
  unfold persist, write_text.
  destruct (json_dumps c (JDict payload)) as [text|]; [|left; auto].
  destruct (fs_writable e path); [|left; auto].
  destruct (encode_text c (text ++ [10%N])) as [b|] eqn:E.
  - right; right. exists text, b; auto.
  - right; left. exists text; auto.
Qed.

(** The call on a record for which inference succeeds, in write mode. *)
Lemma process_file_writes (c : Codec) (e : Env) (path : str) (verbose : bool)
      (d : Disk) (payload : dict) (x : char) (r : str) :
  read_json c d path = Some (JDict payload) ->
  existing_dir e payload = None ->
  infer_project_path e payload = Some (x :: r) ->
  let payload' := dict_set payload (lit "project_path") (JStr (x :: r)) in
  process_file c e path true verbose d
  = if snd (persist c e path payload' d)
    then ((Updated, Some (x :: r)), fst (persist c e path payload' d),
          if verbose then [path_name path ++ lit ": " ++ x :: r] else [])
    else ((Failed, None), fst (persist c e path payload' d), []).
Proof.
  intros Hread Hex Hinf payload'. unfold process_file.
  rewrite Hread, Hex, Hinf. fold payload'.
  destruct (persist c e path payload' d) as [d' written]; reflexivity.
Qed.

(** C8, counterexample: the record has an existing directory as title and
    a field with an escaped surrogate. Inference gives [/tmp] and the
    serialisation succeeds, but the text cannot be encoded; the status is
    [failed] and the file, which had content, is left empty. *)
Lemma write_error_empties_file :
  read_json Json.codec Example.surrogate_disk Example.record_1
    = Some (JDict Example.surrogate_payload)
  /\ infer_project_path Example.tmp_env Example.surrogate_payload
    = Some (lit "/tmp")
  /\ result_status (process_file Json.codec Example.tmp_env Example.record_1
                                 true false Example.surrogate_disk) = Failed
  /\ result_disk (process_file Json.codec Example.tmp_env Example.record_1
                               true false Example.surrogate_disk)
                 Example.record_1 = Some []
  /\ Example.surrogate_disk Example.record_1 <> Some [].
Proof.
  repeat split; try (vm_compute; reflexivity).
  vm_compute; discriminate.
Qed.

(** ** Running the batch twice *)

Lemma dict_get_set (d : dict) (k : str) (v : json) :
  dict_get (dict_set d k v) k = Some v.
Proof.
  induction d as [|[k' x] d IH]; simpl.
  - rewrite str_eqb_refl; reflexivity.
  - destruct (str_eqb k' k) eqn:E; simpl; rewrite E; auto.
Qed.

Lemma read_json_local (c : Codec) (d1 d2 : Disk) (f : str) :
  d1 f = d2 f -> read_json c d1 f = read_json c d2 f.
Proof. unfold read_json; intros ->; reflexivity. Qed.

(** A call changes no other file than its own. *)
Lemma process_file_frame (c : Codec) (e : Env) (f : str) (write verbose : bool)
      (d : Disk) (g : str) :
  g <> f -> result_disk (process_file c e f write verbose d) g = d g.
Proof.
  intros Hg. unfold process_file, result_disk.
  destruct (read_json c d f) as [[]|]; try reflexivity.
  destruct (existing_dir e fields); try reflexivity.
  destruct (infer_project_path e fields) as [[|x r]|]; try reflexivity.
  destruct write; [|reflexivity].
  destruct (persist_cases c e f
              (dict_set fields (lit "project_path") (JStr (x :: r))) d)
    as [(P & _) | [(t & _ & _ & _ & P) | (t & b & _ & _ & _ & P)]];
    rewrite P; simpl; auto using set_file_other.
Qed.




Lemma sweep_cons (c : Codec) (e : Env) (write verbose : bool) (f : str)
      (rest : list str) (d : Disk) :
  sweep c e write verbose (f :: rest) d
  = sweep c e write verbose rest
          (result_disk (process_file c e f write verbose d)).
Proof.
  unfold sweep, result_disk. simpl.
  destruct (process_file c e f write verbose d) as [[[st r] d'] printed].
  apply main_loop_disk.
Qed.


(** A batch changes no file that it does not list. *)
Lemma sweep_frame (c : Codec) (e : Env) (write verbose : bool)
      (files : list str) (d : Disk) (g : str) :
  ~ In g files -> sweep c e write verbose files d g = d g.
Proof.
  revert d; induction files as [|f files IH]; intros d Hg.
  - reflexivity.
  - rewrite sweep_cons, IH by (intros H; apply Hg; right; exact H).
    apply process_file_frame. intros ->; apply Hg; left; reflexivity.
Qed.

Lemma main_disk (c : Codec) (e : Env) (config_dir : str)
      (write verbose : bool) (d : Disk) :
  final_disk (main c e config_dir write verbose d)
  = sweep c e write verbose (fs_listing e config_dir) d.
Proof.
  unfold main, sweep.
  destruct (main_loop c e write verbose (fs_listing e config_dir)
              (d, mkCounters 0 0 0 0, [])) as [[d' k] out].
  reflexivity.
Qed.






(** ** The scenarios of the specification, run on the model *)

Example tokens_of_a_turn :
  extract_absolute_paths
    (lit "see /a/b, and (//x/y) or /c. / d </e>f 'g/h' /")
  = [lit "/a/b"; lit "/c"; lit "/e"; lit "/h"].
Proof. vm_compute; reflexivity. Qed.

Example marker_precedence :
  infer_project_path
    (Example.env_of [lit "/work/proj"; lit "/opt"] [] [])
    [(lit "turns",
      JList [JDict [(lit "content", JStr (lit "ls /opt"))];
             JDict [(lit "content",
                     JStr (lit "Active project root: /work/proj"))]])]
  = Some (lit "/work/proj").
Proof. vm_compute; reflexivity. Qed.

Example scenario_no_evidence :
  fst (process_file Json.codec Example.tmp_env Example.record_1 true true
         (Example.disk_of [("/cfg/context-1.json"%string,
                            "{'turns': []}"%string)]))
  = ((Skipped, None),
     Example.disk_of [("/cfg/context-1.json"%string, "{'turns': []}"%string)]).
Proof. vm_compute; reflexivity. Qed.

Example scenario_malformed_file :
  let run := main Json.codec Example.tmp_env (lit "/cfg") true false
                  Example.garbage_disk in
  failed (final_counters run) = 1%Z /\ exit_status run = 1%Z.
Proof. vm_compute; split; reflexivity. Qed.

Example scenario_directory_title :
  fst (fst (process_file Json.codec
              (Example.env_of [lit "/home/u/proj"] [] []) Example.record_1
              false false
              (Example.disk_of [("/cfg/context-1.json"%string,
                                 "{'title':'/home/u/proj'}"%string)])))
  = (Updated, Some (lit "/home/u/proj")).
Proof. vm_compute; reflexivity. Qed.

(** * Further properties of the script *)

(** ** The token scan of [extract_absolute_paths] *)

Lemma extract_loop (l : list str) (acc : list str) :
  fold_left
    (fun out c =>
       let c := rstrip_chars (lit ".,;:)]}") c in
       if startswith (lit "//") c then out else out ++ [c])
    l acc
  = acc ++ flat_map
             (fun c => if startswith (lit "//") (rstrip_chars (lit ".,;:)]}") c)
                       then []
                       else [rstrip_chars (lit ".,;:)]}") c])
             l.
Proof.
  revert acc; induction l as [|x l IH]; intros acc; cbn [fold_left flat_map].
  - rewrite app_nil_r; reflexivity.
  - rewrite IH. cbv zeta.
    destruct (startswith (lit "//") (rstrip_chars (lit ".,;:)]}") x)).
    + reflexivity.
    + rewrite <- app_assoc. reflexivity.
Qed.

(** The loop of [extract_absolute_paths] as a map over the matches. *)
Lemma extract_flat_map (text : str) :
  extract_absolute_paths text
  = flat_map (fun c => if startswith (lit "//") (rstrip_chars (lit ".,;:)]}") c)
                       then []
                       else [rstrip_chars (lit ".,;:)]}") c])
             (findall_paths None text).
Proof. unfold extract_absolute_paths. apply (extract_loop _ []). Qed.

(** The characters read so far by a scan state. *)
Lemma emit_in (t x : str) : In x (emit t) -> x = rev t /\ (2 <= length t)%nat.
Proof.
  unfold emit. destruct (2 <=? length t)%nat eqn:E; [|intros []].
  intros [<- | []]. apply Nat.leb_le in E. auto.
Qed.

Lemma path_char_slash : path_char 47%N = true.
Proof. reflexivity. Qed.

Lemma path_char_not_slash (c : char) : path_char c = false -> (c =? 47)%N = false.
Proof.
  intros H. destruct (N.eqb_spec c 47); auto. subst; discriminate.
Qed.

(** Every match is a slash followed by one or more characters of the
    class. *)
Lemma findall_shape (text : str) (tok : option str) (x : str) :
  match tok with
  | Some t => exists run, rev t = 47%N :: run /\ forallb path_char run = true
  | None => True
  end ->
  In x (findall_paths tok text) ->
  exists run, x = 47%N :: run /\ run <> [] /\ forallb path_char run = true.
Proof.
  revert tok; induction text as [|c rest IH]; intros tok Htok; simpl.
  - destruct tok as [t|]; [|intros []].
    intros Hx. apply emit_in in Hx. destruct Hx as [-> Hlen].
    destruct Htok as (run & Hr & Hall). exists run. repeat split; auto.
    intros ->. apply (f_equal (@length _)) in Hr.
    rewrite length_rev in Hr. simpl in Hr. lia.
  - destruct tok as [t|].
    + destruct (path_char c) eqn:Pc.
      * apply IH. destruct Htok as (run & Hr & Hall).
        exists (run ++ [c]). split.
        -- simpl. rewrite Hr. reflexivity.
        -- rewrite forallb_app. apply andb_true_iff. split; [exact Hall|].
           simpl. rewrite Pc. reflexivity.
      * rewrite in_app_iff. intros [Hx | Hx]; [|apply (IH None I Hx)].
        apply emit_in in Hx. destruct Hx as [-> Hlen].
        destruct Htok as (run & Hr & Hall). exists run. repeat split; auto.
        intros ->. apply (f_equal (@length _)) in Hr.
        rewrite length_rev in Hr. simpl in Hr. lia.
    + destruct (N.eqb_spec c 47) as [-> | Hc].
      * apply IH. exists []. auto.
      * apply IH. exact I.
Qed.

(** Every match is a part of the text scanned. *)
Lemma findall_occurs (text : str) (tok : option str) (x : str) :
  In x (findall_paths tok text) ->
  exists pre post,
    match tok with Some t => rev t | None => [] end ++ text = pre ++ x ++ post.
Proof.
  revert tok; induction text as [|c rest IH]; intros tok; simpl.
  - destruct tok as [t|]; [|intros []].
    intros Hx. apply emit_in in Hx. destruct Hx as [-> _].
    exists [], []. rewrite !app_nil_r. reflexivity.
  - destruct tok as [t|].
    + destruct (path_char c).
      * intros Hx. destruct (IH _ Hx) as (pre & post & H).
        exists pre, post. rewrite <- H. simpl. rewrite <- app_assoc. reflexivity.
      * rewrite in_app_iff. intros [Hx | Hx].
        -- apply emit_in in Hx. destruct Hx as [-> _].
           exists [], (c :: rest). reflexivity.
        -- destruct (IH _ Hx) as (pre & post & H). simpl in H.
           exists (rev t ++ c :: pre), post. rewrite H.
           rewrite <- app_assoc. reflexivity.
    + destruct (c =? 47)%N.
      * intros Hx. destruct (IH _ Hx) as (pre & post & H).
        exists pre, post. exact H.
      * intros Hx. destruct (IH _ Hx) as (pre & post & H). simpl in H.
        exists (c :: pre), post. rewrite H. reflexivity.
Qed.

(** A character outside the class ends the match being read: the scan of
    the text is the scan of what precedes it followed by the scan of what
    follows it. *)
Lemma findall_split (a b : str) (c : char) (tok : option str) :
  path_char c = false ->
  findall_paths tok (a ++ c :: b)
  = findall_paths tok a ++ findall_paths None b.
Proof.
  intros Pc. revert tok; induction a as [|x a IH]; intros tok; simpl.
  - destruct tok as [t|]; rewrite ?Pc, ?(path_char_not_slash _ Pc); reflexivity.
  - destruct tok as [t|].
    + destruct (path_char x); [apply IH|].
      rewrite IH, app_assoc. reflexivity.
    + destruct (x =? 47)%N; apply IH.
Qed.

Lemma findall_run (s t : str) :
  forallb path_char s = true ->
  findall_paths (Some t) s = emit (rev s ++ t).
Proof.
  revert t; induction s as [|c s IH]; intros t; simpl; auto.
  rewrite andb_true_iff. intros [-> Hs]. rewrite IH by exact Hs.
  simpl. rewrite <- app_assoc. reflexivity.
Qed.

Lemma rstrip_prefix (f : char -> bool) (s : str) :
  exists t, s = rstrip_by f s ++ t.
Proof.
  induction s as [|c s [t IH]]; simpl.
  - exists []; reflexivity.
  - destruct (rstrip_by f s) as [|y r] eqn:E.
    + destruct (f c); [exists (c :: s) | exists s]; reflexivity.
    + exists t. simpl. rewrite IH at 1. reflexivity.
Qed.

Lemma rstrip_last (f : char -> bool) (s l : str) (c : char) :
  rstrip_by f s = l ++ [c] -> f c = false.
Proof.
  revert l; induction s as [|x s IH]; intros l; simpl.
  - destruct l; discriminate.
  - destruct (rstrip_by f s) as [|y r] eqn:E.
    + destruct (f x) eqn:Fx; [destruct l; discriminate|].
      destruct l as [|z l]; simpl; intros H; inversion H; subst; auto.
      destruct l; discriminate.
    + destruct l as [|z l]; simpl; intros H; inversion H; subst.
      apply (IH l); assumption.
Qed.

Lemma forallb_prefix (f : char -> bool) (a b : str) :
  forallb f (a ++ b) = true -> forallb f a = true.
Proof.
  rewrite forallb_app. intros H. apply andb_true_iff in H. tauto.
Qed.

(** X1: every path returned by [extract_absolute_paths] begins with one
    slash and not with two, holds no whitespace, quote or angle bracket,
    does not end in one of the characters stripped, and is a part of the
    text. *)
Theorem extracted_path_shape (text y : str) :
  In y (extract_absolute_paths text) ->
  (exists r, y = 47%N :: r)
  /\ startswith (lit "//") y = false
  /\ forallb path_char y = true
  /\ (forall l c, y = l ++ [c] -> mem_char c (lit ".,;:)]}") = false)
  /\ exists pre post, text = pre ++ y ++ post.
Proof.
  rewrite extract_flat_map, in_flat_map. intros (x & Hx & Hy).
  destruct (startswith (lit "//") (rstrip_chars (lit ".,;:)]}") x)) eqn:Hss;
    [destruct Hy|]. destruct Hy as [<- | []].
  destruct (findall_shape text None x I Hx) as (run & -> & Hne & Hall).
  destruct (findall_occurs text None _ Hx) as (pre & post & Hocc).
  simpl in Hocc. unfold rstrip_chars in *.
  destruct (rstrip_prefix (fun c => mem_char c (lit ".,;:)]}")) (47%N :: run))
    as [t Ht].
  destruct (rstrip_cons_keep (fun c => mem_char c (lit ".,;:)]}")) 47%N run
              eq_refl) as [r Hr].
  repeat split.
  - exists r; exact Hr.
  - exact Hss.
  - apply (forallb_prefix path_char _ t). rewrite <- Ht. simpl. exact Hall.
  - intros l c Hl. apply (rstrip_last _ _ _ _ Hl).
  - exists pre, (t ++ post). rewrite Hocc. f_equal.
    rewrite app_assoc, <- Ht. reflexivity.
Qed.

Lemma extracted_path_shape_witness :
  exists pre post,
    lit "see /a/b, and /c." = pre ++ lit "/a/b" ++ post.
Proof.
  apply (extracted_path_shape (lit "see /a/b, and /c.") (lit "/a/b")).
  vm_compute. left; reflexivity.
Defined.

(** X2: a character that cannot be part of a path (whitespace, a quote, an
    angle bracket) cuts the text in two: the paths of the whole are the
    paths of the part before it followed by those of the part after it. *)
Theorem extract_splits_at_delimiter (a b : str) (c : char) :
  path_char c = false ->
  extract_absolute_paths (a ++ c :: b)
  = extract_absolute_paths a ++ extract_absolute_paths b.
Proof.
  intros Pc. rewrite !extract_flat_map, (findall_split a b c None Pc).
  apply flat_map_app.
Qed.

Lemma extract_splits_at_delimiter_witness :
  extract_absolute_paths (lit "cd /srv/app" ++ 32%N :: lit "&& ls /var/log.")
  = extract_absolute_paths (lit "cd /srv/app")
    ++ extract_absolute_paths (lit "&& ls /var/log.").
Proof.
  apply (extract_splits_at_delimiter (lit "cd /srv/app") (lit "&& ls /var/log.")
           32%N).
  reflexivity.
Defined.

(** X3: a text that is a slash followed only by characters of a path is
    one token: the result is that text without its trailing punctuation,
    or nothing when the slash stands alone or the text begins with two
    slashes. *)
Theorem extract_single_token (s : str) :
  forallb path_char s = true ->
  extract_absolute_paths (47%N :: s)
  = match s with
    | [] => []
    | _ :: _ =>
        if startswith (lit "//") (rstrip_chars (lit ".,;:)]}") (47%N :: s))
        then []
        else [rstrip_chars (lit ".,;:)]}") (47%N :: s)]
    end.
Proof.
  intros Hs. rewrite extract_flat_map.
  assert (findall_paths None (47%N :: s) = emit (rev s ++ [47%N])) as ->
      by apply (findall_run s [47%N] Hs).
  unfold emit.
  rewrite length_app, length_rev. simpl length.
  destruct s as [|c s]; [reflexivity|].
  replace (2 <=? length (c :: s) + 1)%nat with true
    by (symmetry; apply Nat.leb_le; simpl; lia).
  rewrite rev_app_distr, rev_involutive. simpl rev. cbn [flat_map app].
  rewrite app_nil_r. reflexivity.
Qed.

Lemma extract_single_token_witness :
  extract_absolute_paths (lit "/home/u/proj).") = [lit "/home/u/proj"].
Proof.
  apply (extract_single_token (lit "home/u/proj).")). reflexivity.
Defined.

(** ** The evidence of a record *)

Lemma scan_turns_contents (turns : list json) (st : list str * list str) :
  scan_turns turns st
  = (fst st ++ flat_map turn_candidates (turn_contents turns),
     snd st ++ turn_contents turns).
Proof.
  revert st; induction turns as [|t turns IH]; intros [cands parts]; simpl.
  - rewrite !app_nil_r; reflexivity.
  - destruct t; try apply IH.
    destruct (dict_get fields (lit "content")) as [[]|]; try apply IH.
    rewrite IH. simpl. rewrite <- !app_assoc. reflexivity.
Qed.

Lemma collect_reads_texts_eq (payload : dict) :
  collect payload
  = (flat_map (fun title => if startswith (lit "/") title
                            then [strip title] else [])
              (title_text payload)
     ++ flat_map turn_candidates (contents payload),
     join [10%N] (title_text payload ++ contents payload)).
Proof.
  unfold collect, title_text, contents.
  destruct (dict_get payload (lit "title")) as [[]|];
    destruct (dict_get payload (lit "turns")) as [[]|];
    cbn [fst snd flat_map turn_contents app];
    rewrite ?scan_turns_contents; cbn [fst snd flat_map turn_contents app];
    rewrite ?app_nil_r; try reflexivity.
Qed.

(** X4: the candidates of a record are those of its title followed, turn
    by turn, by those of each content that is a string; the context is the
    title and these contents joined by line feeds. Turns that are no
    objects, contents that are no strings and a [turns] field that is no
    list contribute nothing and raise nothing. *)
Theorem collect_reads_texts (payload : dict) :
  collect payload
  = (flat_map (fun title => if startswith (lit "/") title
                            then [strip title] else [])
              (title_text payload)
     ++ flat_map turn_candidates (contents payload),
     join [10%N] (title_text payload ++ contents payload)).
Proof. apply collect_reads_texts_eq. Qed.

Lemma strip_keeps_slash (s : str) :
  startswith (lit "/") s = true -> exists r, strip s = 47%N :: r.
Proof.
  intros H. rewrite (strip_slash_first s H).
  apply startswith_spec in H. destruct H as [r ->].
  apply (rstrip_cons_keep is_space 47%N r eq_refl).
Qed.

Lemma marker_candidate_slash (content marker c : str) :
  In c (marker_candidates content marker) -> exists r, c = 47%N :: r.
Proof.
  unfold marker_candidates.
  destruct (0 <=? find content marker)%Z; [|intros []].
  cbv zeta.
  destruct (startswith (lit "/")
              (strip (slice_from (find content marker + len marker) content)))
    eqn:Hm; [|intros []].
  destruct (marker_line _ Hm) as (Hb & Hline & _). rewrite Hline.
  destruct (strip_keeps_slash _ Hb) as [r ->].
  intros [<- | []]. exists r; reflexivity.
Qed.

Lemma markers_loop (content : str) (markers : list str) (acc : list str) :
  fold_left (fun cands marker => cands ++ marker_candidates content marker)
            markers acc
  = acc ++ flat_map (marker_candidates content) markers.
Proof.
  revert acc; induction markers as [|m markers IH]; intros acc; simpl.
  - rewrite app_nil_r; reflexivity.
  - rewrite IH, app_assoc; reflexivity.
Qed.

Lemma turn_candidate_cases (content c : str) :
  In c (turn_candidates content) ->
  (exists marker, In c (marker_candidates content marker))
  \/ In c (extract_absolute_paths content).
Proof.
  unfold turn_candidates. rewrite markers_loop, app_nil_l, in_app_iff.
  rewrite in_flat_map. intros [(m & _ & H) | H]; eauto.
Qed.

Lemma extracted_slash (text y : str) :
  In y (extract_absolute_paths text) ->
  exists x r, In x (findall_paths None text) /\ y = 47%N :: r.
Proof.
  rewrite extract_flat_map, in_flat_map. intros (x & Hx & Hy).
  destruct (startswith _ _); [destruct Hy|]. destruct Hy as [<- | []].
  destruct (findall_shape text None x I Hx) as (run & -> & _).
  destruct (rstrip_cons_keep (fun c => mem_char c (lit ".,;:)]}")) 47%N run
              eq_refl) as [r Hr].
  exists (47%N :: run), r. split; auto.
Qed.

Lemma candidate_slash (payload : dict) (c : str) :
  In c (fst (collect payload)) -> exists r, c = 47%N :: r.
Proof.
  rewrite collect_reads_texts_eq. cbn [fst]. rewrite in_app_iff, !in_flat_map.
  intros [(title & _ & H) | (content & _ & H)].
  - destruct (startswith (lit "/") title) eqn:E; [|destruct H].
    destruct H as [<- | []]. apply strip_keeps_slash; exact E.
  - destruct (turn_candidate_cases _ _ H) as [(m & Hm) | He].
    + apply (marker_candidate_slash _ _ _ Hm).
    + destruct (extracted_slash _ _ He) as (x & r & _ & ->). exists r; reflexivity.
Qed.

(** X5: every candidate of a record begins with a slash, whichever of the
    three rules produced it. *)
Theorem candidates_begin_with_slash (payload : dict) (c : str) :
  In c (fst (collect payload)) -> exists r, c = 47%N :: r.
Proof. apply candidate_slash. Qed.

Lemma candidates_begin_with_slash_witness :
  exists r, lit "/tmp" = 47%N :: r.
Proof.
  apply (candidates_begin_with_slash Example.surrogate_payload (lit "/tmp")).
  vm_compute. left; reflexivity.
Defined.

Lemma no_slash_spec (s : str) : no_slash s = true <-> ~ In 47%N s.
Proof.
  unfold no_slash. induction s as [|c s IH]; simpl; [tauto|].
  rewrite andb_true_iff, IH, negb_true_iff, N.eqb_neq. intuition.
Qed.

Lemma in_lstrip (f : char -> bool) (s : str) (c : char) :
  In c (lstrip_by f s) -> In c s.
Proof.
  induction s as [|x s IH]; simpl; auto.
  destruct (f x); simpl; auto.
Qed.

Lemma in_rstrip (f : char -> bool) (s : str) (c : char) :
  In c (rstrip_by f s) -> In c s.
Proof.
  intros H. destruct (rstrip_prefix f s) as [t Ht]. rewrite Ht.
  apply in_or_app; left; exact H.
Qed.

Lemma in_slice (i : Z) (s : str) (c : char) : In c (slice_from i s) -> In c s.
Proof.
  unfold slice_from. intros H.
  rewrite <- (firstn_skipn (Z.to_nat i) s). apply in_or_app; right; exact H.
Qed.

Lemma no_slash_no_marker_candidate (content marker : str) :
  no_slash content = true -> marker_candidates content marker = [].
Proof.
  intros H. apply no_slash_spec in H. unfold marker_candidates.
  destruct (0 <=? find content marker)%Z; auto. cbv zeta.
  destruct (startswith (lit "/")
              (strip (slice_from (find content marker + len marker) content)))
    eqn:Hm; auto.
  exfalso. apply H. apply startswith_spec in Hm. destruct Hm as [r Hr].
  apply (in_slice (find content marker + len marker)).
  apply (in_lstrip is_space), (in_rstrip is_space).
  unfold strip in Hr. rewrite Hr. left; reflexivity.
Qed.

Lemma no_slash_no_token (text : str) :
  no_slash text = true -> extract_absolute_paths text = [].
Proof.
  intros H. apply no_slash_spec in H.
  destruct (extract_absolute_paths text) as [|y l] eqn:E; auto.
  exfalso. apply H.
  destruct (extracted_slash text y) as (x & r & Hx & _);
    [rewrite E; left; reflexivity|].
  destruct (findall_shape text None x I Hx) as (run & -> & _).
  destruct (findall_occurs text None _ Hx) as (pre & post & Hocc).
  simpl in Hocc. rewrite Hocc. apply in_or_app; right. left; reflexivity.
Qed.

Lemma no_slash_no_turn_candidate (content : str) :
  no_slash content = true -> turn_candidates content = [].
Proof.
  intros H. unfold turn_candidates.
  rewrite markers_loop, (no_slash_no_token _ H), !app_nil_r, app_nil_l.
  induction PROJECT_ROOT_MARKERS as [|m l IH]; simpl; auto.
  rewrite (no_slash_no_marker_candidate _ m H), IH. reflexivity.
Qed.

Lemma no_candidates_skipped (c : Codec) (e : Env) (path : str)
      (write verbose : bool) (d : Disk) (payload : dict) :
  read_json c d path = Some (JDict payload) ->
  existing_dir e payload = None ->
  fst (collect payload) = [] ->
  process_file c e path write verbose d = ((Skipped, None), d, []).
Proof.
  intros Hread Hex Hc. unfold process_file, infer_project_path.
  rewrite Hread, Hex, Hc. reflexivity.
Qed.

(** X6: a record none of whose texts holds a slash, and in particular a
    record that has no title and no turns, gives no candidate; unless its
    [project_path] is already valid it is skipped with no path, in either
    mode, and nothing is written. *)
Theorem no_slash_no_inference (c : Codec) (e : Env) (path : str)
    (write verbose : bool) (d : Disk) (payload : dict) :
  read_json c d path = Some (JDict payload) ->
  existing_dir e payload = None ->
  forallb no_slash (title_text payload ++ contents payload) = true ->
  process_file c e path write verbose d = ((Skipped, None), d, []).
Proof.
  intros Hread Hex Hno.
  apply (no_candidates_skipped c e path write verbose d payload); auto.
  rewrite collect_reads_texts_eq. cbn [fst].
  rewrite forallb_app in Hno. apply andb_true_iff in Hno.
  destruct Hno as [Ht Hc].
  assert (flat_map (fun title => if startswith (lit "/") title
                                 then [strip title] else [])
                   (title_text payload) = []) as ->.
  { induction (title_text payload) as [|t l IH];
      cbn [flat_map forallb] in *; auto.
    apply andb_true_iff in Ht. destruct Ht as [Ht Hl].
    rewrite (IH Hl), app_nil_r.
    destruct (startswith (lit "/") t) eqn:E; [exfalso|reflexivity].
    apply startswith_spec in E. destruct E as [r ->].
    simpl in Ht. discriminate Ht. }
  induction (contents payload) as [|t l IH]; simpl in *; auto.
  apply andb_true_iff in Hc. destruct Hc as [Hc Hl].
  rewrite (no_slash_no_turn_candidate _ Hc), (IH Hl). reflexivity.
Qed.

Lemma no_slash_no_inference_witness :
  process_file Json.codec Example.tmp_env Example.record_1 true true
               Example.plain_disk
  = ((Skipped, None), Example.plain_disk, []).
Proof.
  apply (no_slash_no_inference Json.codec Example.tmp_env Example.record_1
           true true Example.plain_disk Example.plain_payload);
    vm_compute; reflexivity.
Defined.

(** ** Scores and ranking *)

(** X7: a score lies between 0 and 132, and a candidate that is no
    directory and follows no marker in the context scores at most 22. *)
Theorem score_bounds (e : Env) (c t : str) :
  (0 <= score_candidate e c t <= 132)%Z
  /\ (is_abs_dir e c = false ->
      (forall m, In m PROJECT_ROOT_MARKERS ->
                 contains (m ++ lit " " ++ c) t = false) ->
      (score_candidate e c t <= 22)%Z).
Proof.
  unfold score_candidate.
  rewrite (marker_bonus_sum (fun m => contains (m ++ lit " " ++ c) t)).
  assert (length (filter (fun m : str => contains (m ++ lit " " ++ c) t)
                         PROJECT_ROOT_MARKERS) <= 2)%nat as Hle
      by apply (filter_length_le _ PROJECT_ROOT_MARKERS).
  unfold len.
  assert (0 <= Z.of_nat (length c) / 8)%Z as Hdiv
      by (apply Z.div_pos; lia).
  split.
  - revert Hle.
    generalize (length (filter (fun m : str => contains (m ++ lit " " ++ c) t)
                               PROJECT_ROOT_MARKERS)).
    intros n Hn.
    destruct (is_abs_dir e c), (contains (lit "/home/") c); lia.
  - intros -> Hm.
    assert (filter (fun m : str => contains (m ++ lit " " ++ c) t)
                   PROJECT_ROOT_MARKERS = []) as ->.
    { revert Hm. generalize PROJECT_ROOT_MARKERS. intros l.
      induction l as [|m l IH]; intros Hm; cbn [filter]; auto.
      rewrite (Hm m (or_introl eq_refl)). apply IH.
      intros m' Hm'. apply Hm. right; exact Hm'. }
    destruct (contains (lit "/home/") c); simpl length; lia.
Qed.

Lemma score_bounds_witness :
  (score_candidate Example.bare_env (lit "/home/u/proj") (lit "cd /home/u/proj")
   <= 22)%Z.
Proof.
  apply (score_bounds Example.bare_env (lit "/home/u/proj")
           (lit "cd /home/u/proj")).
  - reflexivity.
  - intros m [<- | [<- | []]]; vm_compute; reflexivity.
Defined.

(** X8: for the first entry of the ranking the directory test decides
    alone: a directory always reaches the threshold, so ranking resolves to
    the normal form of that entry exactly when it is a directory. *)
Theorem directory_test_decides (e : Env) (payload : dict)
    (sc : Z) (best : str) (rest : list (Z * str)) :
  existing_dir e payload = None ->
  ranked e payload = (sc, best) :: rest ->
  infer_project_path e payload
  = if is_abs_dir e best then Some (normalize_path e best) else None.
Proof.
  intros Hex R. unfold infer_project_path. rewrite Hex.
  destruct (fst (collect payload)) as [|x l] eqn:Hc.
  - exfalso. assert (In (sc, best) (ranked e payload)) as Hin
        by (rewrite R; left; reflexivity).
    apply ranked_entry in Hin. rewrite Hc in Hin. destruct Hin as [_ []].
  - rewrite R. destruct (is_abs_dir e best) eqn:D; simpl.
    + assert (In (sc, best) (ranked e payload)) as Hin
          by (rewrite R; left; reflexivity).
      apply ranked_entry in Hin. destruct Hin as [-> _].
      pose proof (score_of_directory e best (snd (collect payload)) D) as H.
      apply Z.ltb_ge in H. rewrite H. reflexivity.
    + destruct (sc <? 10)%Z; reflexivity.
Qed.

Lemma directory_test_decides_witness :
  infer_project_path Example.tmp_env Example.surrogate_payload
  = Some (lit "/tmp").
Proof.
  apply (directory_test_decides Example.tmp_env Example.surrogate_payload
           30%Z (lit "/tmp") []); vm_compute; reflexivity.
Defined.

Lemma insert_desc_perm (x : Z * str) (l : list (Z * str)) :
  Permutation (insert_desc x l) (x :: l).
Proof.
  induction l as [|y l IH]; simpl; auto.
  destruct (fst x <? fst y)%Z; auto.
  rewrite IH. apply perm_swap.
Qed.

Lemma sort_desc_perm (l : list (Z * str)) : Permutation (sort_desc l) l.
Proof.
  induction l as [|x l IH]; simpl; auto.
  rewrite insert_desc_perm. constructor. exact IH.
Qed.

Lemma insert_desc_sorted (x : Z * str) (l : list (Z * str)) :
  StronglySorted (fun a b => (fst b <= fst a)%Z) l ->
  StronglySorted (fun a b => (fst b <= fst a)%Z) (insert_desc x l).
Proof.
  induction l as [|y l IH]; simpl; intros Hs.
  - repeat constructor.
  - inversion Hs as [|? ? Hl Hy]; subst.
    destruct (fst x <? fst y)%Z eqn:E.
    + apply Z.ltb_lt in E. constructor; [apply IH; exact Hl|].
      rewrite Forall_forall in *. intros z Hz.
      apply in_insert_desc in Hz. destruct Hz as [-> | Hz]; [lia | auto].
    + apply Z.ltb_ge in E. constructor; [exact Hs|].
      constructor; [exact E|].
      rewrite Forall_forall in *. intros z Hz. specialize (Hy z Hz). lia.
Qed.

Lemma sort_desc_sorted (l : list (Z * str)) :
  StronglySorted (fun a b => (fst b <= fst a)%Z) (sort_desc l).
Proof.
  induction l as [|x l IH]; simpl; [constructor|].
  apply insert_desc_sorted; exact IH.
Qed.

Lemma existsb_str_eqb (c : str) (seen : list str) :
  existsb (str_eqb c) seen = true <-> In c seen.
Proof.
  rewrite existsb_exists. split.
  - intros (x & Hx & E). apply str_eqb_eq in E. subst; exact Hx.
  - intros H. exists c. split; [exact H | apply str_eqb_refl].
Qed.

(** The scoring loop keeps the first occurrence of each candidate that was
    not seen before, in order. *)
Lemma rank_loop_distinct (e : Env) (blob : str) (cands seen : list str) :
  NoDup (map snd (rank_loop e blob cands seen))
  /\ forall c, In c (map snd (rank_loop e blob cands seen))
               <-> In c cands /\ ~ In c seen.
Proof.
  revert seen; induction cands as [|x cands IH]; intros seen; simpl.
  - split; [constructor | intros c; tauto].
  - destruct (existsb (str_eqb x) seen) eqn:E.
    + apply existsb_str_eqb in E. destruct (IH seen) as [Hn Hi].
      split; [exact Hn|]. intros c. rewrite Hi.
      split; [tauto|]. intros [[<- | H] Hs]; [contradiction | auto].
    + assert (~ In x seen) as Hx.
      { intros H. apply existsb_str_eqb in H. congruence. }
      destruct (IH (x :: seen)) as [Hn Hi]. simpl. split.
      * constructor; [|exact Hn]. rewrite Hi. simpl. tauto.
      * intros c. rewrite Hi. simpl.
        destruct (list_eq_dec N.eq_dec x c) as [-> | Hne]; [tauto|].
        tauto.
Qed.

(** X9: the ranking holds each distinct candidate of the record exactly
    once and is in descending order of score. *)
Theorem ranking_distinct_sorted (e : Env) (payload : dict) :
  NoDup (map snd (ranked e payload))
  /\ (forall c, In c (map snd (ranked e payload))
                <-> In c (fst (collect payload)))
  /\ StronglySorted (fun a b => (fst b <= fst a)%Z) (ranked e payload).
Proof.
  unfold ranked. destruct (collect payload) as [cands blob]. cbn [fst].
  destruct (rank_loop_distinct e blob cands []) as [Hn Hi].
  pose proof (Permutation_map snd (sort_desc_perm (rank_loop e blob cands [])))
    as P.
  split; [|split].
  - apply (Permutation_NoDup (Permutation_sym P) Hn).
  - intros c. split.
    + intros H. apply (Permutation_in _ P) in H. apply Hi in H. tauto.
    + intros H. apply (Permutation_in _ (Permutation_sym P)).
      apply Hi. split; [exact H | intros []].
  - apply sort_desc_sorted.
Qed.

(** Where the first entry of a sorted list stood before the sort. *)
Lemma sort_desc_first (l : list (Z * str)) (x : Z * str) (rest : list (Z * str)) :
  sort_desc l = x :: rest ->
  exists before after,
    l = before ++ x :: after
    /\ (forall y, In y before -> (fst y < fst x)%Z)
    /\ (forall y, In y after -> (fst y <= fst x)%Z).
Proof.
  revert x rest; induction l as [|y l IH]; intros x rest; [discriminate|].
  intros E. change (insert_desc y (sort_desc l) = x :: rest) in E.
  destruct (sort_desc l) as [|h t] eqn:S.
  - simpl in E. inversion E; subst.
    assert (l = []) as ->.
    { pose proof (sort_desc_perm l) as P. rewrite S in P.
      apply Permutation_nil in P. exact P. }
    exists [], []. repeat split; intros z [].
  - simpl in E. destruct (fst y <? fst h)%Z eqn:C.
    + apply Z.ltb_lt in C. inversion E; subst.
      destruct (IH x t eq_refl) as (before & after & -> & Hb & Ha).
      exists (y :: before), after. repeat split; auto.
      intros z [<- | Hz]; auto.
    + apply Z.ltb_ge in C. inversion E; subst.
      exists [], l. repeat split; [intros z []|].
      intros z Hz. pose proof (sort_desc_top l h t S z Hz). lia.
Qed.

(** X10: ties go to the candidate met first: every candidate that was
    extracted before the first entry of the ranking scores strictly less
    than it, and every candidate extracted after it scores at most as
    much. *)
Theorem first_of_the_best_wins (e : Env) (payload : dict)
    (sc : Z) (best : str) (rest : list (Z * str)) :
  ranked e payload = (sc, best) :: rest ->
  exists before after,
    rank_loop e (snd (collect payload)) (fst (collect payload)) []
    = before ++ (sc, best) :: after
    /\ (forall y, In y before -> (fst y < sc)%Z)
    /\ (forall y, In y after -> (fst y <= sc)%Z).
Proof.
  unfold ranked. destruct (collect payload) as [cands blob]. cbn [fst snd].
  intros R. apply (sort_desc_first _ _ _ R).
Qed.

Lemma first_of_the_best_wins_witness :
  exists before after,
    rank_loop Example.bare_env (snd (collect Example.tie_payload))
              (fst (collect Example.tie_payload)) []
    = before ++ (19%Z, lit "/elsewhere") :: after
    /\ (forall y, In y before -> (fst y < 19)%Z)
    /\ (forall y, In y after -> (fst y <= 19)%Z).
Proof.
  apply (first_of_the_best_wins Example.bare_env Example.tie_payload
           19%Z (lit "/elsewhere") [(19%Z, lit "/elsewherf")]).
  vm_compute; reflexivity.
Defined.

(** X11: the two places where the script takes element 0 of a list never
    find it empty: the ranking of a record that has a candidate has an
    entry, and a text that is not empty has a first line. *)
Theorem first_elements_exist :
  (forall e payload, fst (collect payload) <> [] -> ranked e payload <> [])
  /\ (forall s, s <> [] -> splitlines s <> []).
Proof.
  split.
  - intros e payload H R. unfold ranked in R.
    destruct (collect payload) as [cands blob]. cbn [fst] in H.
    destruct cands as [|x cands]; [congruence|].
    pose proof (sort_desc_perm (rank_loop e blob (x :: cands) [])) as P.
    rewrite R in P. apply Permutation_nil in P. simpl in P. discriminate.
  - intros [|c s] H; [congruence|]. simpl.
    destruct (is_linebreak c); [discriminate|].
    destruct (splitlines s); discriminate.
Qed.

(** ** The record written back *)

Lemma dict_get_set_other (d : dict) (k k' : str) (v : json) :
  k' <> k -> dict_get (dict_set d k v) k' = dict_get d k'.
Proof.
  intros Hk. induction d as [|[k0 x] d IH]; simpl.
  - rewrite (str_eqb_neq k k') by congruence. reflexivity.
  - destruct (str_eqb k0 k) eqn:E; simpl.
    + apply str_eqb_eq in E. subst k0.
      rewrite (str_eqb_neq k k') by congruence. reflexivity.
    + rewrite IH. reflexivity.
Qed.

Lemma dict_set_keys (d : dict) (k : str) (v : json) :
  map fst (dict_set d k v)
  = match dict_get d k with
    | Some _ => map fst d
    | None => map fst d ++ [k]
    end.
Proof.
  induction d as [|[k0 x] d IH]; simpl; auto.
  destruct (str_eqb k0 k) eqn:E; simpl; auto.
  rewrite IH. destruct (dict_get d k); reflexivity.
Qed.

(** What a call that answers [updated] in write mode has done. *)
Lemma process_file_updated (c : Codec) (e : Env) (path : str) (verbose : bool)
      (d : Disk) (r : option str) :
  fst (fst (process_file c e path true verbose d)) = (Updated, r) ->
  exists payload x s text b,
    r = Some (x :: s)
    /\ read_json c d path = Some (JDict payload)
    /\ existing_dir e payload = None
    /\ infer_project_path e payload = Some (x :: s)
    /\ json_dumps c (JDict (dict_set payload (lit "project_path")
                                     (JStr (x :: s)))) = Some text
    /\ encode_text c (text ++ [10%N]) = Some b
    /\ result_disk (process_file c e path true verbose d) path = Some b.
Proof.
  destruct (read_json c d path) as [[| | | | | |payload]|] eqn:R;
    try (unfold process_file; rewrite R; discriminate).
  destruct (existing_dir e payload) as [p|] eqn:Ex;
    [unfold process_file; rewrite R, Ex; discriminate|].
  destruct (infer_project_path e payload) as [[|x s]|] eqn:Inf;
    try (unfold process_file; rewrite R, Ex, Inf; discriminate).
  rewrite (process_file_writes c e path verbose d payload x s R Ex Inf).
  destruct (persist_cases c e path
              (dict_set payload (lit "project_path") (JStr (x :: s))) d)
    as [(P & _) | [(t & _ & _ & _ & P) | (t & b & Hd & _ & He & P)]];
    rewrite P; simpl; try discriminate.
  intros H; inversion H; subst.
  exists payload, x, s, t, b. unfold result_disk; simpl.
  repeat split; auto. apply set_file_same.
Qed.

(** X12: when a record is updated in write mode, the file holds the
    encoded compact serialisation, ended by a line feed, of the record read
    with [project_path] set to the path returned: every other field keeps
    its value, and the fields keep their order, a new [project_path] going
    last. *)
Theorem update_keeps_other_fields (c : Codec) (e : Env) (path : str)
    (verbose : bool) (d : Disk) (r : str) :
  fst (fst (process_file c e path true verbose d)) = (Updated, Some r) ->
  exists payload payload' text b,
    read_json c d path = Some (JDict payload)
    /\ json_dumps c (JDict payload') = Some text
    /\ encode_text c (text ++ [10%N]) = Some b
    /\ result_disk (process_file c e path true verbose d) path = Some b
    /\ dict_get payload' (lit "project_path") = Some (JStr r)
    /\ (forall k, k <> lit "project_path" ->
                  dict_get payload' k = dict_get payload k)
    /\ map fst payload'
       = match dict_get payload (lit "project_path") with
         | Some _ => map fst payload
         | None => map fst payload ++ [lit "project_path"]
         end.
Proof.
  intros H.
  destruct (process_file_updated c e path verbose d (Some r) H)
    as (payload & x & s & text & b & Hr & R & _ & _ & Hd & He & Hf).
  inversion Hr; subst.
  exists payload, (dict_set payload (lit "project_path") (JStr (x :: s))),
    text, b.
  repeat split; auto.
  - apply dict_get_set.
  - intros k Hk. apply dict_get_set_other; exact Hk.
  - apply dict_set_keys.
Qed.

Lemma update_keeps_other_fields_witness :
  exists payload payload' text b,
    read_json Json.codec Example.batch_disk Example.record_1
    = Some (JDict payload)
    /\ json_dumps Json.codec (JDict payload') = Some text
    /\ encode_text Json.codec (text ++ [10%N]) = Some b
    /\ result_disk (process_file Json.codec Example.batch_env Example.record_1
                                 true false Example.batch_disk)
                   Example.record_1 = Some b
    /\ dict_get payload' (lit "project_path") = Some (JStr (lit "/tmp"))
    /\ (forall k, k <> lit "project_path" ->
                  dict_get payload' k = dict_get payload k)
    /\ map fst payload'
       = match dict_get payload (lit "project_path") with
         | Some _ => map fst payload
         | None => map fst payload ++ [lit "project_path"]
         end.
Proof.
  apply (update_keeps_other_fields Json.codec Example.batch_env
           Example.record_1 false Example.batch_disk (lit "/tmp")).
  vm_compute; reflexivity.
Defined.

(** X13: a dry run tells what the run in write mode does. A record that
    the dry run skips or fails gets the same answer in write mode, which
    then writes nothing; a record that the dry run reports as updated is in
    write mode either updated with the same path and the same printed line,
    or failed with no path. *)
Theorem dry_run_predicts (c : Codec) (e : Env) (path : str) (verbose : bool)
    (d : Disk) :
  let dry := process_file c e path false verbose d in
  let wet := process_file c e path true verbose d in
  (result_status dry <> Updated -> wet = dry)
  /\ (result_status dry = Updated ->
      (fst (fst wet) = fst (fst dry) /\ snd wet = snd dry)
      \/ fst (fst wet) = (Failed, None)).
Proof.
  unfold process_file, result_status.
  destruct (read_json c d path) as [[| | | | | |payload]|]; simpl;
    try (split; [reflexivity | discriminate]).
  destruct (existing_dir e payload); simpl;
    try (split; [reflexivity | discriminate]).
  destruct (infer_project_path e payload) as [[|x s]|]; simpl;
    try (split; [reflexivity | discriminate]).
  split; [intros H; congruence|]. intros _.
  destruct (persist c e path
              (dict_set payload (lit "project_path") (JStr (x :: s))) d)
    as [d' [|]]; simpl; auto.
Qed.

(** ** What a batch prints and touches *)

Lemma process_file_prints (c : Codec) (e : Env) (path : str)
      (write verbose : bool) (d : Disk) :
  (result_status (process_file c e path write verbose d) = Updated ->
   exists r,
     result_path (process_file c e path write verbose d) = Some r
     /\ snd (process_file c e path write verbose d)
        = if verbose then [path_name path ++ lit ": " ++ r] else [])
  /\ (result_status (process_file c e path write verbose d) <> Updated ->
      snd (process_file c e path write verbose d) = []).
Proof.
  unfold process_file, result_status, result_path.
  destruct (read_json c d path) as [[| | | | | |payload]|]; simpl;
    try (split; [discriminate | reflexivity]).
  destruct (existing_dir e payload); simpl;
    try (split; [discriminate | reflexivity]).
  destruct (infer_project_path e payload) as [[|x s]|]; simpl;
    try (split; [discriminate | reflexivity]).
  destruct (if write then persist c e path _ d else (d, true)) as [d' [|]];
    simpl; split; try discriminate; try reflexivity; try congruence.
  intros _. exists (x :: s). auto.
Qed.

Lemma main_loop_lines (c : Codec) (e : Env) (write verbose : bool)
      (files : list str) (d : Disk) (k : Counters) (out : list str) :
  let st := main_loop c e write verbose files (d, k, out) in
  (Z.of_nat (length (snd st)) - Z.of_nat (length out)
   = if verbose then updated (snd (fst st)) - updated k else 0)%Z.
Proof.
  revert d k out; induction files as [|f files IH]; intros d k out; simpl.
  - destruct verbose; lia.
  - destruct (process_file_prints c e f write verbose d) as [Hu Hn].
    unfold result_status, result_path in Hu, Hn.
    destruct (process_file c e f write verbose d) as [[[st r] d'] printed].
    simpl in Hu, Hn. specialize (IH d' (count k st) (out ++ printed)).
    cbv zeta in IH. rewrite length_app in IH.
    assert (Z.of_nat (length printed)
            = if verbose then updated (count k st) - updated k else 0)%Z as Hl.
    { destruct st.
      - destruct (Hu eq_refl) as (r' & _ & ->).
        destruct verbose; simpl; lia.
      - rewrite Hn by discriminate. destruct verbose; simpl; lia.
      - rewrite Hn by discriminate. destruct verbose; simpl; lia. }
    destruct verbose; lia.
Qed.

(** X15: a batch leaves every file that the listing does not name as it
    was, in either mode. *)
Theorem unlisted_files_untouched (c : Codec) (e : Env) (config_dir : str)
    (write verbose : bool) (d : Disk) (g : str) :
  ~ In g (fs_listing e config_dir) ->
  final_disk (main c e config_dir write verbose d) g = d g.
Proof.
  intros H. rewrite main_disk. apply sweep_frame; exact H.
Qed.

Lemma unlisted_files_untouched_witness :
  final_disk (main Json.codec Example.batch_env (lit "/cfg") true false
                   Example.batch_disk) (lit "/cfg/settings.json")
  = Example.batch_disk (lit "/cfg/settings.json").
Proof.
  apply (unlisted_files_untouched Json.codec Example.batch_env (lit "/cfg")
           true false Example.batch_disk (lit "/cfg/settings.json")).
  simpl. intuition discriminate.
Defined.

(** A call reads and writes its own file only: on two disks that hold the
    same file it answers and prints the same and leaves the same file. *)
Lemma process_file_local (c : Codec) (e : Env) (f : str) (write verbose : bool)
      (d1 d2 : Disk) :
  d1 f = d2 f ->
  fst (fst (process_file c e f write verbose d1))
  = fst (fst (process_file c e f write verbose d2))
  /\ snd (process_file c e f write verbose d1)
     = snd (process_file c e f write verbose d2)
  /\ result_disk (process_file c e f write verbose d1) f
     = result_disk (process_file c e f write verbose d2) f.
Proof.
  intros H. unfold process_file, result_disk.
  rewrite (read_json_local c d1 d2 f H).
  destruct (read_json c d2 f) as [[| | | | | |payload]|]; simpl; auto.
  destruct (existing_dir e payload); simpl; auto.
  destruct (infer_project_path e payload) as [[|x s]|]; simpl; auto.
  destruct write; simpl; auto.
  unfold persist, write_text.
  destruct (json_dumps c _); simpl; auto.
  destruct (fs_writable e f); simpl; auto.
  destruct (encode_text c _); simpl; rewrite !set_file_same; auto.
Qed.

(** X17: a record is reported as updated, in either mode, only with the
    normal form of one of its own candidates that is an existing directory:
    the path returned is never empty, never invented, and the record had no
    valid [project_path] before. *)
Theorem updated_path_comes_from_record (c : Codec) (e : Env) (path : str)
    (write verbose : bool) (d : Disk) (r : option str) :
  fst (fst (process_file c e path write verbose d)) = (Updated, r) ->
  exists payload p,
    read_json c d path = Some (JDict payload)
    /\ existing_dir e payload = None
    /\ In p (fst (collect payload))
    /\ is_abs_dir e p = true
    /\ r = Some (normalize_path e p)
    /\ normalize_path e p <> [].
Proof.
  unfold process_file.
  destruct (read_json c d path) as [[| | | | | |payload]|]; try discriminate.
  destruct (existing_dir e payload) eqn:Ex; try discriminate.
  destruct (infer_project_path e payload) as [[|x s]|] eqn:Inf;
    try discriminate.
  destruct (if write then persist c e path _ d else (d, true)) as [d' [|]];
    simpl; try discriminate.
  intros H; inversion H; subst.
  destruct (infer_cases e payload (x :: s) Inf) as (p & Hp & Dp & K).
  destruct K as [K | (_ & sc & rest & R & _)]; [congruence|].
  assert (In (sc, p) (ranked e payload)) as Hin by (rewrite R; left; auto).
  apply ranked_entry in Hin. destruct Hin as [_ Hin].
  exists payload, p. rewrite <- Hp. repeat split; auto. discriminate.
Qed.

Lemma updated_path_comes_from_record_witness :
  exists payload p,
    read_json Json.codec Example.batch_disk Example.record_1
    = Some (JDict payload)
    /\ existing_dir Example.batch_env payload = None
    /\ In p (fst (collect payload))
    /\ is_abs_dir Example.batch_env p = true
    /\ Some (lit "/tmp") = Some (normalize_path Example.batch_env p)
    /\ normalize_path Example.batch_env p <> [].
Proof.
  apply (updated_path_comes_from_record Json.codec Example.batch_env
           Example.record_1 false false Example.batch_disk (Some (lit "/tmp"))).
  vm_compute; reflexivity.
Defined.

(** X18: the marker bonus dominates: a candidate that the context holds
    right after a marker and one space scores more than any candidate that
    follows no marker, whatever their lengths and whether or not they are
    directories. *)
Theorem declared_root_outranks (e : Env) (declared other t : str) :
  (exists m, In m PROJECT_ROOT_MARKERS
             /\ contains (m ++ lit " " ++ declared) t = true) ->
  (forall m, In m PROJECT_ROOT_MARKERS ->
             contains (m ++ lit " " ++ other) t = false) ->
  (score_candidate e other t < score_candidate e declared t)%Z.
Proof.
  intros (m & Hm & Hc) Hnone. unfold score_candidate.
  rewrite (marker_bonus_sum (fun m => contains (m ++ lit " " ++ declared) t)).
  rewrite (marker_bonus_sum (fun m => contains (m ++ lit " " ++ other) t)).
  assert (filter (fun m : str => contains (m ++ lit " " ++ other) t)
                 PROJECT_ROOT_MARKERS = []) as ->.
  { revert Hnone. generalize PROJECT_ROOT_MARKERS. intros l.
    induction l as [|x l IH]; intros Hnone; cbn [filter]; auto.
    rewrite (Hnone x (or_introl eq_refl)). apply IH.
    intros y Hy. apply Hnone. right; exact Hy. }
  assert (1 <= length (filter (fun m : str =>
                                 contains (m ++ lit " " ++ declared) t)
                              PROJECT_ROOT_MARKERS))%nat as Hone.
  { assert (In m (filter (fun m : str =>
                            contains (m ++ lit " " ++ declared) t)
                         PROJECT_ROOT_MARKERS)) as Hin
        by (apply filter_In; auto).
    destruct (filter _ PROJECT_ROOT_MARKERS); [destruct Hin | simpl; lia]. }
  revert Hone.
  generalize (length (filter (fun m : str =>
                                contains (m ++ lit " " ++ declared) t)
                             PROJECT_ROOT_MARKERS)).
  intros n Hn. unfold len.
  assert (0 <= Z.of_nat (length other) / 8)%Z by (apply Z.div_pos; lia).
  assert (0 <= Z.of_nat (length declared) / 8)%Z by (apply Z.div_pos; lia).
  simpl length.
  destruct (is_abs_dir e other), (is_abs_dir e declared),
    (contains (lit "/home/") other), (contains (lit "/home/") declared); lia.
Qed.

Lemma declared_root_outranks_witness :
  (score_candidate Example.tmp_env (lit "/tmp")
                   (lit "ls /tmp; Active project root: /work/proj")
   < score_candidate Example.tmp_env (lit "/work/proj")
                     (lit "ls /tmp; Active project root: /work/proj"))%Z.
Proof.
  apply (declared_root_outranks Example.tmp_env (lit "/work/proj") (lit "/tmp")
           (lit "ls /tmp; Active project root: /work/proj")).
  - exists (lit "Active project root:"). split; [left; reflexivity|].
    vm_compute; reflexivity.
  - intros m [<- | [<- | []]]; vm_compute; reflexivity.
Defined.

(** ** The prompt of the benchmark runner *)

Lemma escape_newlines_no_lf (s : str) : ~ In 10%N (escape_newlines s).
Proof.
  unfold escape_newlines. rewrite in_flat_map. intros (c & _ & H).
  destruct (c =? 10)%N eqn:E.
  - destruct H as [H | [H | []]]; discriminate.
  - destruct H as [H | []]. subst c. discriminate.
Qed.

(** X19: the prompt piped to the agent is one line: the flattened prompt
    holds no line feed, so the text sent has exactly two of them, the one
    that ends the prompt and the one that ends [/quit]. *)
Theorem agent_input_two_lines (file_text : str) :
  ~ In 10%N (flatten_prompt file_text)
  /\ count_occ N.eq_dec (agent_input file_text) 10%N = 2%nat
  /\ exists line,
       agent_input file_text = line ++ [10%N] ++ lit "/quit" ++ [10%N]
       /\ ~ In 10%N line.
Proof.
  pose proof (escape_newlines_no_lf (strip file_text)) as H.
  split; [exact H|]. split.
  - unfold agent_input. rewrite count_occ_app.
    match goal with
    | |- (?a + _)%nat = _ =>
        assert (a = 0%nat) as -> by (apply count_occ_not_In; exact H)
    end.
    reflexivity.
  - exists (flatten_prompt file_text). split; [reflexivity | exact H].
Qed.

(** ** Candidates are parts of the record's text *)

Lemma occurs_refl (s : str) : occurs_in s s.
Proof. exists [], []. rewrite app_nil_r. reflexivity. Qed.

Lemma occurs_trans (x y z : str) : occurs_in x y -> occurs_in y z -> occurs_in x z.
Proof.
  intros (a & b & ->) (c & d & ->). exists (c ++ a), (b ++ d).
  rewrite <- !app_assoc. reflexivity.
Qed.

Lemma occurs_prefix (x t : str) : occurs_in x (x ++ t).
Proof. exists [], t. reflexivity. Qed.

Lemma occurs_suffix (p x : str) : occurs_in x (p ++ x).
Proof. exists p, []. rewrite app_nil_r. reflexivity. Qed.

Lemma strip_occurs (s : str) : occurs_in (strip s) s.
Proof.
  unfold strip.
  destruct (rstrip_prefix is_space (lstrip_by is_space s)) as [t Ht].
  apply (occurs_trans _ (lstrip_by is_space s)).
  - rewrite Ht at 2. apply occurs_prefix.
  - rewrite (take_while_lstrip is_space s) at 2. apply occurs_suffix.
Qed.

Lemma slice_occurs (i : Z) (s : str) : occurs_in (slice_from i s) s.
Proof.
  unfold slice_from. rewrite <- (firstn_skipn (Z.to_nat i) s) at 2.
  apply occurs_suffix.
Qed.

Lemma first_line_occurs (s : str) : occurs_in (hd [] (splitlines s)) s.
Proof.
  rewrite first_line_take_while.
  rewrite (take_while_lstrip not_linebreak s) at 2. apply occurs_prefix.
Qed.

Lemma marker_candidate_occurs (content marker c : str) :
  In c (marker_candidates content marker) -> occurs_in c content.
Proof.
  unfold marker_candidates.
  destruct (0 <=? find content marker)%Z; [|intros []]. cbv zeta.
  destruct (startswith (lit "/") _); [|intros []].
  destruct (strip (hd [] (splitlines _))) as [|x l] eqn:E; [intros []|].
  intros [<- | []]. rewrite <- E.
  eapply occurs_trans; [apply strip_occurs|].
  eapply occurs_trans; [apply first_line_occurs|].
  eapply occurs_trans; [apply strip_occurs | apply slice_occurs].
Qed.

Lemma extracted_occurs (text y : str) :
  In y (extract_absolute_paths text) -> occurs_in y text.
Proof.
  rewrite extract_flat_map, in_flat_map. intros (x & Hx & Hy).
  destruct (startswith _ _); [destruct Hy|]. destruct Hy as [<- | []].
  destruct (findall_occurs text None x Hx) as (pre & post & Hocc).
  simpl in Hocc. unfold rstrip_chars.
  destruct (rstrip_prefix (fun c => mem_char c (lit ".,;:)]}")) x) as [t Ht].
  apply (occurs_trans _ x).
  - rewrite Ht at 2. apply occurs_prefix.
  - exists pre, post. exact Hocc.
Qed.

Lemma join_occurs (sep p : str) (parts : list str) :
  In p parts -> occurs_in p (join sep parts).
Proof.
  induction parts as [|q parts IH]; [intros []|].
  intros [-> | H].
  - destruct parts as [|q' parts]; simpl; [apply occurs_refl|].
    apply occurs_prefix.
  - destruct parts as [|q' parts]; [destruct H|].
    change (join sep (q :: q' :: parts))
      with (q ++ sep ++ join sep (q' :: parts)).
    apply (occurs_trans _ (join sep (q' :: parts))); [apply IH; exact H|].
    rewrite app_assoc. apply occurs_suffix.
Qed.

(** X20: every candidate of a record stands verbatim in its context: the
    extractor trims and cuts, it never builds a path that the title or a
    turn does not spell out. *)
Theorem candidates_occur_in_context (payload : dict) (c : str) :
  In c (fst (collect payload)) ->
  contains c (snd (collect payload)) = true.
Proof.
  rewrite collect_reads_texts_eq. cbn [fst snd]. intros H.
  apply contains_spec. fold (occurs_in c (join [10%N]
                               (title_text payload ++ contents payload))).
  apply in_app_iff in H. rewrite !in_flat_map in H.
  destruct H as [(title & Ht & H) | (content & Hc & H)].
  - destruct (startswith (lit "/") title); [|destruct H].
    destruct H as [<- | []].
    eapply occurs_trans; [apply strip_occurs|].
    apply join_occurs, in_or_app. left; exact Ht.
  - apply (occurs_trans _ content).
    + destruct (turn_candidate_cases _ _ H) as [(m & Hm) | He].
      * apply (marker_candidate_occurs _ _ _ Hm).
      * apply extracted_occurs; exact He.
    + apply join_occurs, in_or_app. right; exact Hc.
Qed.

Lemma candidates_occur_in_context_witness :
  contains (lit "/elsewhere") (snd (collect Example.resolved_payload)) = true.
Proof.
  apply (candidates_occur_in_context Example.resolved_payload (lit "/elsewhere")).
  vm_compute. left; reflexivity.
Defined.

(** * The script under exceptions and write errors *)

(** ** What the fallible functions return is what the script computes when
    the directory test answers *)

Lemma exc_is_abs_dir (f : Faults) (e : Env) (p : str) (b : bool) :
  Exc.is_abs_dir f e p = Some b ->
  dir_test_raises f p = false /\ b = is_abs_dir e p.
Proof.
  unfold Exc.is_abs_dir, is_abs_dir.
  destruct (dir_test_raises f p); [discriminate|].
  intros H; inversion H; auto.
Qed.

Lemma exc_is_abs_dir_answers (f : Faults) (e : Env) (p : str) :
  dir_test_raises f p = false ->
  Exc.is_abs_dir f e p = Some (is_abs_dir e p).
Proof. unfold Exc.is_abs_dir, is_abs_dir. intros ->. reflexivity. Qed.

Lemma exc_score (f : Faults) (e : Env) (p t : str) (s : Z) :
  Exc.score_candidate f e p t = Some s ->
  dir_test_raises f p = false /\ s = score_candidate e p t.
Proof.
  unfold Exc.score_candidate, score_candidate.
  destruct (Exc.is_abs_dir f e p) as [b|] eqn:E; [|discriminate].
  destruct (exc_is_abs_dir f e p b E) as [Hr ->].
  intros H; inversion H; auto.
Qed.

Lemma exc_score_answers (f : Faults) (e : Env) (p t : str) :
  dir_test_raises f p = false ->
  Exc.score_candidate f e p t = Some (score_candidate e p t).
Proof.
  intros H. unfold Exc.score_candidate, score_candidate.
  rewrite (exc_is_abs_dir_answers f e p H). reflexivity.
Qed.

Lemma exc_rank_loop (f : Faults) (e : Env) (blob : str)
      (cands seen : list str) (l : list (Z * str)) :
  Exc.rank_loop f e blob cands seen = Some l ->
  l = rank_loop e blob cands seen
  /\ forall x, In x l -> dir_test_raises f (snd x) = false.
Proof.
  revert seen l; induction cands as [|c cands IH]; intros seen l; simpl.
  - intros H; inversion H; subst. split; [reflexivity | intros x []].
  - destruct (existsb (str_eqb c) seen); [apply IH|].
    destruct (Exc.score_candidate f e c blob) as [s|] eqn:S; [|discriminate].
    destruct (Exc.rank_loop f e blob cands (c :: seen)) as [l'|] eqn:R;
      [|discriminate].
    intros H; inversion H; subst.
    destruct (exc_score f e c blob s S) as [Hr ->].
    destruct (IH _ _ R) as [-> Hall]. split; [reflexivity|].
    intros x [<- | Hx]; [exact Hr | apply Hall; exact Hx].
Qed.

Lemma exc_ranked (f : Faults) (e : Env) (payload : dict) (l : list (Z * str)) :
  Exc.ranked f e payload = Some l ->
  l = ranked e payload
  /\ forall x, In x l -> dir_test_raises f (snd x) = false.
Proof.
  unfold Exc.ranked, ranked. destruct (collect payload) as [cands blob].
  destruct (Exc.rank_loop f e blob cands []) as [l'|] eqn:R; [|discriminate].
  intros H; inversion H; subst.
  destruct (exc_rank_loop f e blob cands [] l' R) as [-> Hall].
  split; [reflexivity|]. intros x Hx. apply Hall.
  apply (proj1 (in_sort_desc x _)). exact Hx.
Qed.

Lemma exc_existing (f : Faults) (e : Env) (payload : dict) (x : option str) :
  Exc.existing_dir f e payload = Some x -> x = existing_dir e payload.
Proof.
  unfold Exc.existing_dir, existing_dir.
  destruct (dict_get payload (lit "project_path")) as [[]|];
    try (intros H; inversion H; reflexivity).
  destruct (Exc.is_abs_dir f e s) as [b|] eqn:E; [|discriminate].
  destruct (exc_is_abs_dir f e s b E) as [_ ->].
  destruct (is_abs_dir e s); intros H; inversion H; reflexivity.
Qed.

Lemma exc_infer (f : Faults) (e : Env) (payload : dict) (x : option str) :
  Exc.infer_project_path f e payload = Some x ->
  x = infer_project_path e payload.
Proof.
  unfold Exc.infer_project_path, infer_project_path.
  destruct (Exc.existing_dir f e payload) as [ex|] eqn:Ex; [|discriminate].
  rewrite <- (exc_existing f e payload ex Ex).
  destruct ex as [ex|]; [intros H; inversion H; reflexivity|].
  destruct (fst (collect payload)); [intros H; inversion H; reflexivity|].
  destruct (Exc.ranked f e payload) as [rk|] eqn:R; [|discriminate].
  destruct (exc_ranked f e payload rk R) as [<- Hall].
  destruct rk as [|[sc best] rest]; [intros H; inversion H; reflexivity|].
  destruct (sc <? 10)%Z; [intros H; inversion H; reflexivity|].
  destruct (Exc.is_abs_dir f e best) as [b|] eqn:E; [|discriminate].
  destruct (exc_is_abs_dir f e best b E) as [_ ->].
  destruct (is_abs_dir e best); intros H; inversion H; reflexivity.
Qed.

(** ** The threshold *)

(** C4: whatever inference resolves to is the normal form of an existing
    directory that scores 10 or more, either the valid [project_path] of the
    record or the first entry of the ranking. And when the candidates
    could be ranked and the first entry scores less than 10 or is no
    directory, no entry scores more, ranking resolves to nothing, and a
    call whose test on [project_path] answered skips the record and
    leaves the disk untouched. *)
Theorem threshold_correctness (f : Faults) (e : Env) (payload : dict) :
  (forall r, Exc.infer_project_path f e payload = Some (Some r) ->
     exists p, r = normalize_path e p /\ is_abs_dir e p = true /\
       (10 <= score_candidate e p (snd (collect payload)))%Z /\
       (Exc.existing_dir f e payload = Some (Some p) \/
        Exc.existing_dir f e payload = Some None /\
        exists rest, Exc.ranked f e payload
                     = Some ((score_candidate e p (snd (collect payload)), p)
                             :: rest)))
  /\
  (forall sc best rest, Exc.ranked f e payload = Some ((sc, best) :: rest) ->
     (sc < 10)%Z \/ is_abs_dir e best = false ->
     (forall x, In x ((sc, best) :: rest) -> (fst x <= sc)%Z) /\
     (Exc.existing_dir f e payload = Some None ->
      Exc.infer_project_path f e payload = Some None) /\
     forall c path write verbose d,
       read_json c d path = Some (JDict payload) ->
       Exc.existing_dir f e payload <> None ->
       exists r, Exc.process_file f c e path write verbose d
                 = Some ((Skipped, r), d, [])).
Proof.
  split.
  - intros r H. unfold Exc.infer_project_path in H.
    destruct (Exc.existing_dir f e payload) as [[ex|]|] eqn:Ex;
      [| |discriminate].
    + inversion H; subst. exists ex.
      pose proof (exc_existing f e payload _ Ex) as Hex. symmetry in Hex.
      destruct (existing_dir_is_dir e payload ex Hex) as [_ D].
      repeat split; auto. apply score_of_directory; exact D.
    + destruct (fst (collect payload)); [discriminate|].
      destruct (Exc.ranked f e payload) as [[|[sc best] rest]|] eqn:R;
        try discriminate.
      destruct (sc <? 10)%Z; [discriminate|].
      destruct (Exc.is_abs_dir f e best) as [[|]|] eqn:D; try discriminate.
      inversion H; subst. exists best.
      destruct (exc_is_abs_dir f e best true D) as [_ Dir]. symmetry in Dir.
      destruct (exc_ranked f e payload _ R) as [Hl _].
      assert (In (sc, best) (ranked e payload)) as Hin
          by (rewrite <- Hl; left; reflexivity).
      apply ranked_entry in Hin. destruct Hin as [-> _].
      repeat split; auto; [apply score_of_directory; exact Dir|].
      right. split; [reflexivity|]. exists rest. reflexivity.
  - intros sc best rest R Hweak.
    destruct (exc_ranked f e payload _ R) as [Hl Hall].
    assert (Exc.existing_dir f e payload = Some None ->
            Exc.infer_project_path f e payload = Some None) as Hinf.
    { intros Ex. unfold Exc.infer_project_path. rewrite Ex.
      destruct (fst (collect payload)); [reflexivity|]. rewrite R.
      destruct (sc <? 10)%Z eqn:T; [reflexivity|].
      apply Z.ltb_ge in T. destruct Hweak as [Hw | Hd]; [lia|].
      rewrite (exc_is_abs_dir_answers f e best
                 (Hall (sc, best) (or_introl eq_refl))), Hd.
      reflexivity. }
    split; [|split].
    + intros x Hx. rewrite Hl in Hx. unfold ranked in *.
      destruct (collect payload) as [cands blob].
      apply (sort_desc_top _ (sc, best) rest (eq_sym Hl)).
      apply in_sort_desc; exact Hx.
    + exact Hinf.
    + intros c path write verbose d Hread Hans. unfold Exc.process_file.
      rewrite Hread.
      destruct (Exc.existing_dir f e payload) as [[ex|]|] eqn:Ex;
        [eauto | | congruence].
      rewrite (Hinf eq_refl). eauto.
Qed.

Lemma threshold_correctness_witness :
  (exists p, lit "/tmp" = normalize_path Example.tmp_env p
             /\ is_abs_dir Example.tmp_env p = true)
  /\ Exc.infer_project_path no_faults Example.bare_env
                            Example.surrogate_payload = Some None
  /\ exists r, Exc.process_file no_faults Json.codec Example.bare_env
                 Example.record_1 true false Example.surrogate_disk
               = Some ((Skipped, r), Example.surrogate_disk, []).
Proof.
  split; [|split].
  - destruct (proj1 (threshold_correctness no_faults Example.tmp_env
                       Example.surrogate_payload) (lit "/tmp"))
      as (p & H1 & H2 & _); [vm_compute; reflexivity|].
    exists p; auto.
  - apply (proj2 (threshold_correctness no_faults Example.bare_env
                    Example.surrogate_payload) 20%Z (lit "/tmp") []);
      [vm_compute; reflexivity | right; reflexivity | reflexivity].
  - apply (proj2 (threshold_correctness no_faults Example.bare_env
                    Example.surrogate_payload) 20%Z (lit "/tmp") []);
      [vm_compute; reflexivity | right; reflexivity
       | vm_compute; reflexivity | vm_compute; discriminate].
Defined.

(** ** Runs without faults *)

Lemma exc_rank_loop_answers (f : Faults) (e : Env) (blob : str)
      (cands seen : list str) :
  (forall p, dir_test_raises f p = false) ->
  Exc.rank_loop f e blob cands seen = Some (rank_loop e blob cands seen).
Proof.
  intros H. revert seen; induction cands as [|c cands IH]; intros seen; simpl.
  - reflexivity.
  - destruct (existsb (str_eqb c) seen); [apply IH|].
    rewrite (exc_score_answers f e c blob (H c)), IH. reflexivity.
Qed.

Lemma exc_existing_answers (f : Faults) (e : Env) (payload : dict) :
  (forall p, dir_test_raises f p = false) ->
  Exc.existing_dir f e payload = Some (existing_dir e payload).
Proof.
  intros H. unfold Exc.existing_dir, existing_dir.
  destruct (dict_get payload (lit "project_path")) as [[]|]; try reflexivity.
  rewrite (exc_is_abs_dir_answers f e s (H s)).
  destruct (is_abs_dir e s); reflexivity.
Qed.

Lemma exc_infer_answers (f : Faults) (e : Env) (payload : dict) :
  (forall p, dir_test_raises f p = false) ->
  Exc.infer_project_path f e payload = Some (infer_project_path e payload).
Proof.
  intros H. unfold Exc.infer_project_path, infer_project_path.
  rewrite (exc_existing_answers f e payload H).
  destruct (existing_dir e payload); [reflexivity|].
  destruct (fst (collect payload)); [reflexivity|].
  unfold Exc.ranked, ranked. destruct (collect payload) as [cands blob].
  rewrite (exc_rank_loop_answers f e blob cands [] H).
  destruct (sort_desc (rank_loop e blob cands [])) as [|[sc best] rest];
    [reflexivity|].
  destruct (sc <? 10)%Z; [reflexivity|].
  rewrite (exc_is_abs_dir_answers f e best (H best)).
  destruct (is_abs_dir e best); reflexivity.
Qed.


Lemma exc_persist_no_faults (c : Codec) (e : Env) (path : str)
      (payload : dict) (d : Disk) :
  Exc.persist no_faults c e path payload d = persist c e path payload d.
Proof.
  unfold Exc.persist, persist, Exc.write_text, write_text. simpl.
  destruct (json_dumps c (JDict payload)); [|reflexivity].
  destruct (fs_writable e path); [|reflexivity].
  destruct (encode_text c _); reflexivity.
Qed.

(** Without faults the fallible call is the call of the first part. *)
Lemma exc_process_file_no_faults (c : Codec) (e : Env) (path : str)
      (write verbose : bool) (d : Disk) :
  Exc.process_file no_faults c e path write verbose d
  = Some (process_file c e path write verbose d).
Proof.
  unfold Exc.process_file, process_file.
  destruct (read_json c d path) as [[| | | | | |payload]|]; try reflexivity.
  rewrite (exc_existing_answers no_faults e payload (fun _ => eq_refl)).
  destruct (existing_dir e payload); [reflexivity|].
  rewrite (exc_infer_answers no_faults e payload (fun _ => eq_refl)).
  destruct (infer_project_path e payload) as [[|x s]|]; try reflexivity.
  rewrite exc_persist_no_faults.
  destruct (if write then persist c e path _ d else (d, true)) as [d' [|]];
    reflexivity.
Qed.

Lemma exc_main_loop_no_faults (c : Codec) (e : Env) (write verbose : bool)
      (files : list str) (st : Disk * Counters * list str) :
  Exc.main_loop no_faults c e write verbose files st
  = (true, main_loop c e write verbose files st).
Proof.
  revert st; induction files as [|file files IH]; intros [[d k] out]; simpl.
  - reflexivity.
  - rewrite exc_process_file_no_faults.
    destruct (process_file c e file write verbose d) as [[[st r] d'] printed].
    apply IH.
Qed.

Lemma exc_main_no_faults (c : Codec) (e : Env) (config_dir : str)
      (write verbose : bool) (d : Disk) :
  Exc.main no_faults c e config_dir write verbose d
  = Returned (main c e config_dir write verbose d).
Proof.
  unfold Exc.main, main. rewrite exc_main_loop_no_faults.
  destruct (main_loop c e write verbose (fs_listing e config_dir)
              (d, mkCounters 0 0 0 0, [])) as [[d' k] out].
  reflexivity.
Qed.

(** ** A write that fails *)

(** The ways [Exc.persist] can end. *)
Lemma exc_persist_cases (f : Faults) (c : Codec) (e : Env) (path : str)
      (payload : dict) (d : Disk) :
  (Exc.persist f c e path payload d = (d, false)
   /\ (json_dumps c (JDict payload) = None \/ fs_writable e path = false))
  \/ (exists text,
        json_dumps c (JDict payload) = Some text
        /\ fs_writable e path = true
        /\ encode_text c (text ++ [10%N]) = None
        /\ Exc.persist f c e path payload d = (set_file d path [], false))
  \/ (exists text b room,
        json_dumps c (JDict payload) = Some text
        /\ fs_writable e path = true
        /\ encode_text c (text ++ [10%N]) = Some b
        /\ write_room f path = Some room
        /\ (room < length b)%nat
        /\ Exc.persist f c e path payload d
           = (set_file d path (firstn room b), false))
  \/ (exists text b,
        json_dumps c (JDict payload) = Some text
        /\ fs_writable e path = true
        /\ encode_text c (text ++ [10%N]) = Some b
        /\ Exc.persist f c e path payload d = (set_file d path b, true)).
Proof.
  unfold Exc.persist, Exc.write_text.
  destruct (json_dumps c (JDict payload)) as [text|]; [|left; auto].
  destruct (fs_writable e path); [|left; auto].
  destruct (encode_text c (text ++ [10%N])) as [b|] eqn:E.
  - destruct (write_room f path) as [room|] eqn:W.
    + destruct (room <? length b)%nat eqn:L.
      * apply Nat.ltb_lt in L. right; right; left.
        exists text, b, room. auto 10.
      * right; right; right. exists text, b. auto.
    + right; right; right. exists text, b. auto.
  - right; left. exists text. auto.
Qed.

Lemma exc_process_file_writes (f : Faults) (c : Codec) (e : Env) (path : str)
      (verbose : bool) (d : Disk) (payload : dict) (x : char) (r : str) :
  read_json c d path = Some (JDict payload) ->
  Exc.existing_dir f e payload = Some None ->
  Exc.infer_project_path f e payload = Some (Some (x :: r)) ->
  let payload' := dict_set payload (lit "project_path") (JStr (x :: r)) in
  Exc.process_file f c e path true verbose d
  = Some (if snd (Exc.persist f c e path payload' d)
          then ((Updated, Some (x :: r)),
                fst (Exc.persist f c e path payload' d),
                if verbose then [path_name path ++ lit ": " ++ x :: r] else [])
          else ((Failed, None), fst (Exc.persist f c e path payload' d), [])).
Proof.
  intros Hread Hex Hinf payload'. unfold Exc.process_file.
  rewrite Hread, Hex, Hinf. fold payload'.
  destruct (Exc.persist f c e path payload' d) as [d' written].
  destruct written; reflexivity.
Qed.

(** C8, amended: when inference succeeds and the write fails, the call
    returns [failed] with no path and no other file changes. The file
    itself is as it was when the serialisation fails or the file cannot be
    opened for writing; once it was opened, it is left empty when the text
    cannot be encoded, and holds the bytes the system took, a proper prefix
    of the encoded text, when the write breaks off. A write that succeeds
    replaces the whole content by the encoded text. *)
Theorem write_failure (f : Faults) (c : Codec) (e : Env) (path : str)
    (verbose : bool) (d : Disk) (payload : dict) (inferred : str) :
  read_json c d path = Some (JDict payload) ->
  Exc.existing_dir f e payload = Some None ->
  Exc.infer_project_path f e payload = Some (Some inferred) ->
  inferred <> [] ->
  let payload' := dict_set payload (lit "project_path") (JStr inferred) in
  exists res,
    Exc.process_file f c e path true verbose d = Some res
    /\ (forall g, g <> path -> result_disk res g = d g)
    /\ (snd (Exc.persist f c e path payload' d) = false ->
        result_status res = Failed /\ result_path res = None
        /\ (json_dumps c (JDict payload') = None \/ fs_writable e path = false ->
            result_disk res = d)
        /\ (forall text,
              json_dumps c (JDict payload') = Some text ->
              fs_writable e path = true ->
              (encode_text c (text ++ [10%N]) = None ->
               result_disk res path = Some [])
              /\ (forall b,
                    encode_text c (text ++ [10%N]) = Some b ->
                    exists room,
                      write_room f path = Some room
                      /\ (room < length b)%nat
                      /\ result_disk res path = Some (firstn room b))))
    /\ (snd (Exc.persist f c e path payload' d) = true ->
        result_status res = Updated /\ result_path res = Some inferred
        /\ exists text b,
             json_dumps c (JDict payload') = Some text
             /\ encode_text c (text ++ [10%N]) = Some b
             /\ result_disk res path = Some b).
Proof.
  intros Hread Hex Hinf Hne payload'.
  destruct inferred as [|x r]; [contradiction|].
  rewrite (exc_process_file_writes f c e path verbose d payload x r
             Hread Hex Hinf).
  fold payload'. eexists. split; [reflexivity|].
  destruct (exc_persist_cases f c e path payload' d)
    as [(P & Hc)
       | [(text & Hd & Hw & He & P)
         | [(text & b & room & Hd & Hw & He & Hr & Hlt & P)
           | (text & b & Hd & Hw & He & P)]]];
    rewrite P; unfold result_disk, result_status, result_path; simpl.
  - split; [auto|]. split; [|discriminate]. intros _.
    repeat split; auto; intros; destruct Hc; congruence.
  - split; [intros g Hg; apply set_file_other; exact Hg|].
    split; [|discriminate]. intros _. repeat split.
    + intros [Hc | Hc]; congruence.
    + intros _. apply set_file_same.
    + intros b Hb. congruence.
  - split; [intros g Hg; apply set_file_other; exact Hg|].
    split; [|discriminate]. intros _. repeat split.
    + intros [Hc | Hc]; congruence.
    + intros He'. congruence.
    + intros b' Hb. exists room. rewrite Hd in H. inversion H; subst.
      rewrite He in Hb. inversion Hb; subst.
      repeat split; auto. apply set_file_same.
  - split; [intros g Hg; apply set_file_other; exact Hg|].
    split; [discriminate|]. intros _. repeat split.
    exists text, b. repeat split; auto. apply set_file_same.
Qed.

Lemma write_failure_witness :
  exists res,
    Exc.process_file Example.ten_bytes Json.codec Example.batch_env
                     Example.record_1 true false Example.batch_disk
    = Some res
    /\ result_status res = Failed
    /\ result_disk res Example.record_1
       = Some (firstn 10
                 (Example.text "{'title':'/tmp','project_path':'/tmp'}"
                  ++ [Byte.x0a])).
Proof.
  destruct (write_failure Example.ten_bytes Json.codec Example.batch_env
              Example.record_1 false Example.batch_disk
              [(lit "title", JStr (lit "/tmp"))] (lit "/tmp"))
    as (res & Hres & _ & Hfail & _);
    try (vm_compute; reflexivity); [vm_compute; discriminate|].
  exists res. split; [exact Hres|].
  destruct (Hfail ltac:(vm_compute; reflexivity)) as (Hst & _ & _ & Hopen).
  split; [exact Hst|].
  destruct (Hopen (map Byte.to_N
                       (Example.text "{'title':'/tmp','project_path':'/tmp'}"))
                  ltac:(vm_compute; reflexivity) ltac:(reflexivity))
    as [_ Hprefix].
  destruct (Hprefix (Example.text "{'title':'/tmp','project_path':'/tmp'}"
                     ++ [Byte.x0a]) ltac:(vm_compute; reflexivity))
    as (room & Hroom & _ & Hfile).
  vm_compute in Hroom. inversion Hroom; subst. exact Hfile.
Defined.

(** ** The batch when a call can raise *)

Lemma exc_process_file_prints (f : Faults) (c : Codec) (e : Env) (path : str)
      (write verbose : bool) (d : Disk)
      (st : Disposition) (r : option str) (d' : Disk) (printed : list str) :
  Exc.process_file f c e path write verbose d = Some ((st, r), d', printed) ->
  Z.of_nat (length printed)
  = match st with
    | Updated => if verbose then 1%Z else 0%Z
    | _ => 0%Z
    end.
Proof.
  unfold Exc.process_file.
  destruct (read_json c d path) as [[| | | | | |payload]|];
    try (intros H; inversion H; reflexivity).
  destruct (Exc.existing_dir f e payload) as [[ex|]|];
    try (intros H; inversion H; reflexivity); try discriminate.
  destruct (Exc.infer_project_path f e payload) as [[[|x s]|]|];
    try (intros H; inversion H; reflexivity); try discriminate.
  destruct (if write then Exc.persist f c e path _ d else (d, true))
    as [d2 [|]]; intros H; inversion H; subst; [|reflexivity].
  destruct verbose; reflexivity.
Qed.

(** What the loop keeps: the lines printed are those of the records
    counted as updated; the three outcome counters account for every file
    scanned, but for the one on which a call raised. *)
Lemma exc_main_loop_inv (f : Faults) (c : Codec) (e : Env)
      (write verbose : bool) (files : list str) (d : Disk) (k : Counters)
      (out : list str) :
  match Exc.main_loop f c e write verbose files (d, k, out) with
  | (fin, (_, k', out')) =>
      (Z.of_nat (length out') - Z.of_nat (length out)
       = if verbose then updated k' - updated k else 0)%Z
      /\ (scanned k' - scanned k
          = (updated k' + skipped k' + failed k')
            - (updated k + skipped k + failed k)
            + (if fin then 0 else 1))%Z
      /\ (fin = true -> (scanned k' - scanned k = Z.of_nat (length files))%Z)
  end.
Proof.
  revert d k out; induction files as [|file files IH]; intros d k out;
    cbn [Exc.main_loop length].
  - destruct verbose; repeat split; lia.
  - destruct (Exc.process_file f c e file write verbose d)
      as [[[[st r] d'] printed]|] eqn:P.
    + pose proof (exc_process_file_prints _ _ _ _ _ _ _ _ _ _ _ P) as Hp.
      specialize (IH d' (count k st) (out ++ printed)).
      destruct (Exc.main_loop f c e write verbose files
                  (d', count k st, out ++ printed)) as [fin [[d2 k2] out2]].
      destruct IH as (I1 & I2 & I3). rewrite length_app in I1.
      destruct (count_step k st) as (C1 & C2 & _).
      assert (updated (count k st) - updated k
              = match st with Updated => 1 | _ => 0 end)%Z as Hu
          by (destruct st; simpl; lia).
      repeat split.
      * destruct verbose, st; lia.
      * lia.
      * intros Hfin. specialize (I3 Hfin). lia.
    + simpl. destruct verbose; repeat split; try lia; discriminate.
Qed.


(** A batch that returns has counted every file once; a batch that was
    left by an exception has scanned one file more than it has counted. *)
Lemma exc_main_counters (f : Faults) (c : Codec) (e : Env) (config_dir : str)
      (write verbose : bool) (d : Disk) :
  match Exc.main f c e config_dir write verbose d with
  | Returned run =>
      let k := final_counters run in
      (scanned k = updated k + skipped k + failed k)%Z
      /\ scanned k = Z.of_nat (length (fs_listing e config_dir))
      /\ (exit_status run = 0%Z <-> failed k = 0%Z)
  | Raised _ k _ =>
      (scanned k = updated k + skipped k + failed k + 1)%Z
  end.
Proof.
  unfold Exc.main.
  pose proof (exc_main_loop_inv f c e write verbose (fs_listing e config_dir)
                d (mkCounters 0 0 0 0) []) as H.
  destruct (Exc.main_loop f c e write verbose (fs_listing e config_dir)
              (d, mkCounters 0 0 0 0, [])) as [[|] [[d' k] out]];
    destruct H as (_ & H2 & H3); simpl in *.
  - specialize (H3 eq_refl). repeat split; try lia.
    + destruct (Z.eqb_spec (failed k) 0); [auto | discriminate].
    + intros ->. reflexivity.
  - lia.
Qed.

(** C9, the defect at work: the only record has a [project_path] that
    names the home of a user the system does not know, so the directory
    test raises in [process_file], outside its [try] blocks. The exception
    leaves [main]: [scanned] is 1 and the three outcome counters are 0, no
    summary is printed, and the process ends with status 1 although
    [failed] is 0. *)
Theorem raising_test_aborts_batch (write verbose : bool) :
  Exc.main Example.ghost_user Json.codec Example.tmp_env (lit "/cfg")
           write verbose Example.ghost_user_disk
  = Raised Example.ghost_user_disk (mkCounters 1 0 0 0) []
  /\ process_exit_status
       (Exc.main Example.ghost_user Json.codec Example.tmp_env (lit "/cfg")
                 write verbose Example.ghost_user_disk) = 1%Z.
Proof. destruct write, verbose; split; reflexivity. Qed.








